(** * Forecasting Non-Farm Payrolls with linear regression: the data pipeline

    A shallow embedding of the notebook [4-forecasting_nfp_lr/NFP.ipynb]:
    the flattening and differencing cells ([np.reshape], [np.diff]), the
    function [data_preprocessing] (lag windows followed by the chronological
    train/test split) and its call, the slices of the plotting cell, and the
    two evaluation cells ([rmse_test], [same_sign_count]).  Loading the
    spreadsheet and fitting the regression are library calls outside the
    embedding.

    Conventions of the embedding.
    - A Python list and a one-dimensional numpy array are a [list]; the
      two-dimensional array of lag windows is the list of its rows.
    - Python integers are [Z]; negative indices and slice bounds follow
      Python's rules (counted from the end, slices clipped).
    - A raised exception is [Err e]; a normal return is [Ok v].
    - A Python float is a binary64 value ([B64.float], the standard
      library's specification of IEEE 754 arithmetic, every operation
      correctly rounded).  The split fraction is a Python number [num]:
      a float, or an exact rational (an [int] or a [fractions.Fraction]).
    - The RMSE cell is given twice: on binary64 values ([rmse_test_b64]) and
      in exact real arithmetic ([rmse_test]); the directional-ratio cell is
      given on reals, with the non-finite results of a division by zero
      kept ([npfloat]).  Signs and counts are the same in both
      arithmetics. *)

From Stdlib Require Import ZArith QArith Qround Reals Lra Lia.
From Stdlib Require Import SpecFloat.
From stdpp Require Import base list.

(** ** Binary64 *)

Module B64.

Definition prec : Z := 53.
Definition emax : Z := 1024.

Definition float : Type := spec_float.

Definition add : float -> float -> float := SFadd prec emax.
Definition sub : float -> float -> float := SFsub prec emax.
Definition mul : float -> float -> float := SFmul prec emax.
Definition div : float -> float -> float := SFdiv prec emax.
Definition sqrt : float -> float := SFsqrt prec emax.

(** The float nearest to the integer [z] (ties to even). *)
Definition of_Z (z : Z) : float := binary_normalize prec emax z 0 false.

(** The float a decimal literal [n/d] denotes: the double nearest to the
    fraction, as a correctly rounded division of two exact integers
    gives it ([of_decimal 67 100] is the literal [0.67]). *)
Definition of_decimal (n d : Z) : float := div (of_Z n) (of_Z d).

Definition is_finite (v : float) : bool :=
  match v with
  | S754_zero _ | S754_finite _ _ _ => true
  | S754_infinity _ | S754_nan => false
  end.

Definition is_zero (v : float) : bool :=
  match v with
  | S754_zero _ => true
  | _ => false
  end.

(** Not negative and not NaN: a zero, a positive number or [+inf]. *)
Definition nonneg (v : float) : bool :=
  match v with
  | S754_zero _ | S754_finite false _ _ | S754_infinity false => true
  | _ => false
  end.

(** [v] is not a NaN and carries the sign [s]. *)
Definition signed (s : bool) (v : float) : Prop :=
  match v with
  | S754_zero s' | S754_infinity s' | S754_finite s' _ _ => s' = s
  | S754_nan => False
  end.


End B64.

(** ** Python level *)

Module Py.

(** The exceptions the modelled code can raise. *)
Inductive exn : Set :=
| IndexError
| ValueError
| OverflowError.

Inductive result (A : Type) : Type :=
| Ok (v : A)
| Err (e : exn).
Global Arguments Ok {A} v.
Global Arguments Err {A} e.

Global Instance result_ret : MRet result := fun A v => Ok v.
Global Instance result_bind : MBind result := fun A B k m =>
  match m with
  | Ok v => k v
  | Err e => Err e
  end.

(** The call [m] ends in an exception. *)
Definition raises {A} (m : result A) : Prop := exists e, m = Err e.

(** [len(l)] *)
Definition len {A} (l : list A) : Z := Z.of_nat (length l).

(** [range(n)]: [0, 1, ..., n-1], empty when [n <= 0]. *)
Definition range (n : Z) : list Z := Z.of_nat <$> seq 0 (Z.to_nat n).

(** [l[k]]: a negative [k] counts from the end; out of range raises. *)
Definition index {A} (l : list A) (k : Z) : result A :=
  let k' := if (k <? 0)%Z then (len l + k)%Z else k in
  if (k' <? 0)%Z then Err IndexError
  else match l !! Z.to_nat k' with
       | Some v => Ok v
       | None => Err IndexError
       end.

(** A slice bound brought into [0 .. len]: negative bounds count from the
    end, and everything is clipped. *)
Definition clip (n : nat) (k : Z) : nat :=
  if (k <? 0)%Z then Z.to_nat (Z.of_nat n + k)
  else Nat.min (Z.to_nat k) n.

(** [l[lo:hi]] *)
Definition slice {A} (l : list A) (lo hi : Z) : list A :=
  let a := clip (length l) lo in
  let b := clip (length l) hi in
  take (b - a) (drop a l).

(** [l[:hi]] *)
Definition slice_to {A} (l : list A) (hi : Z) : list A :=
  take (clip (length l) hi) l.

(** [l[lo:]] *)
Definition slice_from {A} (l : list A) (lo : Z) : list A :=
  drop (clip (length l) lo) l.

(** [int(q)]: truncation towards zero. *)
Definition int (q : Q) : Z := Z.quot (Qnum q) (Z.pos (Qden q)).

(** [int(v)] on a float: truncation towards zero; an infinity is an
    [OverflowError], a NaN a [ValueError]. *)
Definition int_of_float (v : B64.float) : result Z :=
  match v with
  | S754_zero _ => Ok 0%Z
  | S754_finite s m e =>
      let a := match e with
               | Z0 => Z.pos m
               | Z.pos _ => (Z.pos m * 2 ^ e)%Z
               | Z.neg p => (Z.pos m / 2 ^ Z.pos p)%Z
               end in
      Ok (if s then (- a)%Z else a)
  | S754_infinity _ => Err OverflowError
  | S754_nan => Err ValueError
  end.

(** The conversion of the integer operand of [float * int]: the nearest
    float, or an [OverflowError] beyond the largest one. *)
Definition float_of_int (n : Z) : result B64.float :=
  match B64.of_Z n with
  | S754_infinity _ => Err OverflowError
  | v => Ok v
  end.

(** A Python number as the split fraction can be: an exact rational (an
    [int] or a [fractions.Fraction]) or a float. *)
Inductive num : Type :=
| Frac (q : Q)
| Float (v : B64.float).

(** [int(f * n)] for a number [f] and an integer [n], in the arithmetic
    of [f]: exact for a rational, rounded to binary64 for a float. *)
Definition int_times (f : num) (n : Z) : result Z :=
  match f with
  | Frac q => Ok (int (q * inject_Z n))
  | Float v => n' ← float_of_int n; int_of_float (B64.mul v n')
  end.

End Py.
Coercion Py.Frac : Q >-> Py.num.
Import Py.

(** ** numpy and scikit-learn level *)

Module Np.

(** The value of a float expression in the idealised arithmetic: a real
    number, or what a division by zero leaves behind. *)
Inductive npfloat : Type :=
| Fin (r : R)
| Inf
| NaN.

Section Generic.
Context {A : Type}.

(** [np.diff(a)] for a one-dimensional array: [a[1:] - a[:-1]], where
    [sub] is the subtraction of the array's element type. *)
Definition diff (sub : A -> A -> A) (a : list A) : list A :=
  zip_with sub (slice_from a 1) (slice_to a (-1)).

(** [np.reshape(a, (-1))] for a two-dimensional array given by its rows:
    the rows one after the other (row-major order). *)
Definition reshape_flat (a : list (list A)) : list A := concat a.

(** [np.array(rows)] for a list of one-dimensional rows.  Rows of
    different lengths do not form an array ([ValueError], numpy 1.24
    and later). *)
Definition array2 (rows : list (list A)) : result (list (list A)) :=
  match rows with
  | [] => Ok []
  | r :: rs =>
      if forallb (fun r' => length r' =? length r) rs then Ok rows
      else Err ValueError
  end.
End Generic.

(** [np.sign] on one element. *)
Definition sign1 (v : R) : R :=
  if Rlt_dec v 0 then (-1)%R
  else if Rlt_dec 0 v then 1%R
  else 0%R.

(** [np.sign(a)] *)
Definition sign (a : list R) : list R := sign1 <$> a.

Definition eqb1 (u v : R) : bool :=
  if Req_dec_T u v then true else false.

(** [a == b] on one-dimensional arrays: equal shapes compare element by
    element, a one-element array is broadcast against the other, any
    other pair of shapes raises (numpy 1.25 and later). *)
Definition equal (a b : list R) : result (list bool) :=
  if length a =? length b then Ok (zip_with eqb1 a b)
  else match a, b with
       | [u], _ => Ok ((fun v => eqb1 u v) <$> b)
       | _, [v] => Ok ((fun u => eqb1 u v) <$> a)
       | _, _ => Err ValueError
       end.

(** [np.sum(m)] of a boolean array: the number of [True] entries. *)
Definition sum_bool (m : list bool) : Z :=
  Z.of_nat (length (filter (fun b => b = true) m)).

(** [c / n] for a numpy integer [c] and a Python integer [n]: true
    division; dividing by zero warns and yields [nan] or an infinity. *)
Definition true_divide (c n : Z) : npfloat :=
  if (n =? 0)%Z then (if (c =? 0)%Z then NaN else Inf)
  else Fin (IZR c / IZR n).

(** [v * k] for a float [v] and a non-zero integer [k]. *)
Definition times (v : npfloat) (k : Z) : npfloat :=
  match v with
  | Fin r => Fin (r * IZR k)
  | Inf => Inf
  | NaN => NaN
  end.

Definition sum (a : list R) : R := foldr Rplus 0%R a.

(** [np.average(a)] without weights, on a non-empty array. *)
Definition average (a : list R) : R := (sum a / INR (length a))%R.

(** [a - b] and [a ** 2] element by element. *)
Definition subtract (a b : list R) : list R := zip_with Rminus a b.
Definition square (a : list R) : list R := (fun v => (v * v)%R) <$> a.

(** [sklearn.metrics.mean_squared_error(y_true, y_pred)] in exact
    arithmetic: the inputs are validated (same number of samples, at least
    one sample; a real is never a NaN or an infinity, so the finiteness
    check has nothing to reject), then the squared differences are
    averaged.  [mean_squared_error_b64] below is the call on floats. *)
Definition mean_squared_error (y_true y_pred : list R) : result R :=
  if negb (length y_true =? length y_pred) then Err ValueError
  else if length y_true =? 0 then Err ValueError
  else Ok (average (square (subtract y_true y_pred))).

(** [math.sqrt(v)]: a negative argument is a domain error. *)
Definition math_sqrt (v : R) : result R :=
  if Rlt_dec v 0 then Err ValueError else Ok (sqrt v).

(** *** The same library calls on binary64 arrays *)

(** [np.add.reduce] adds the elements of an array up in an order that is
    internal to numpy (pairwise, in blocks).  What every order has in
    common: the result is built from a zero and the elements by additions,
    so a property of both zeros and of every element that addition
    preserves holds of the sum. *)
Definition reduces_by_addition
    (add_reduce : list B64.float -> B64.float) : Prop :=
  forall (P : B64.float -> Prop) (a : list B64.float),
    P (S754_zero false) -> P (S754_zero true) ->
    Forall P a ->
    (forall u v, P u -> P v -> P (B64.add u v)) ->
    P (add_reduce a).

(** One such order: from left to right, starting at zero. *)
Definition add_reduce_seq (a : list B64.float) : B64.float :=
  foldl B64.add (S754_zero false) a.

Section Reduce.
Variable add_reduce : list B64.float -> B64.float.

(** [np.average(a)] without weights: [add.reduce(a) / len(a)]. *)
Definition average_b64 (a : list B64.float) : B64.float :=
  B64.div (add_reduce a) (B64.of_Z (len a)).

(** [(y_true - y_pred) ** 2] element by element. *)
Definition squared_errors (y_true y_pred : list B64.float)
    : list B64.float :=
  zip_with (fun u v => let d := B64.sub u v in B64.mul d d) y_true y_pred.

(** [sklearn.metrics.mean_squared_error(y_true, y_pred)]: the inputs are
    validated (same number of samples, at least one sample, no NaN and no
    infinity), the squared errors are averaged over the samples, and the
    one resulting column is averaged over the outputs. *)
Definition mean_squared_error_b64 (y_true y_pred : list B64.float)
    : result B64.float :=
  if negb (length y_true =? length y_pred) then Err ValueError
  else if length y_true =? 0 then Err ValueError
  else if negb (forallb B64.is_finite y_true && forallb B64.is_finite y_pred)
  then Err ValueError
  else Ok (average_b64 [average_b64 (squared_errors y_true y_pred)]).
End Reduce.

(** [math.sqrt(v)] on a float: a negative argument is a domain error; a
    zero of either sign, [+inf] and NaN are returned unchanged. *)
Definition math_sqrt_b64 (v : B64.float) : result B64.float :=
  match v with
  | S754_finite true _ _ | S754_infinity true => Err ValueError
  | _ => Ok (B64.sqrt v)
  end.

End Np.

(** ** The notebook *)

Section Preprocessing.
Context {A : Type}.

(** The window of [L] values of [data] that starts at index [i]. *)
Definition window_at (data : list A) (L i : nat) : list A :=
  take L (drop i data).

(** The body of the [for] loop of [data_preprocessing], run over the
    remaining indices [idx] with the accumulators [x] and [y]. *)
Fixpoint window_loop (data : list A) (num_lags : Z) (idx : list Z)
    (x : list (list A)) (y : list A) : result (list (list A) * list A) :=
  match idx with
  | [] => Ok (x, y)
  | i :: idx' =>
      let x := x ++ [slice data i (i + num_lags)] in
      v ← index data (i + num_lags);
      window_loop data num_lags idx' x (y ++ [v])
  end.

(** [data_preprocessing] up to the conversion to arrays: the windowed
    dataset before the split. *)
Definition lag_windows (data : list A) (num_lags : Z)
    : result (list (list A) * list A) :=
  '(x, y) ← window_loop data num_lags (range (len data - num_lags)) [] [];
  x ← Np.array2 x;
  Ok (x, y).

(** The four slices of [data_preprocessing] at a split index. *)
Definition split_at (x : list (list A)) (y : list A) (split_index : Z)
    : list (list A) * list A * list (list A) * list A :=
  let _x_train := slice_to x split_index in
  let _y_train := slice_to y split_index in
  let _x_test := slice_from x split_index in
  let _y_test := slice_from y split_index in
  (_x_train, _y_train, _x_test, _y_test).

(** The split of [data_preprocessing]:
    [split_index = int(train_test_split * len(x))], then the slices. *)
Definition train_test (x : list (list A)) (y : list A) (train_test_split : num)
    : result (list (list A) * list A * list (list A) * list A) :=
  split_index ← int_times train_test_split (len x);
  Ok (split_at x y split_index).

Definition data_preprocessing (data : list A) (num_lags : Z)
    (train_test_split : num)
    : result (list (list A) * list A * list (list A) * list A) :=
  '(x, y) ← lag_windows data num_lags;
  train_test x y train_test_split.
End Preprocessing.

(** [rmse_test = math.sqrt(mean_squared_error(y_pred, y_test))], in exact
    arithmetic. *)
Definition rmse_test (y_pred y_test : list R) : result R :=
  mse ← Np.mean_squared_error y_pred y_test;
  Np.math_sqrt mse.

(** The same cell on binary64 arrays, as the notebook runs it, for a
    summation order [add_reduce]. *)
Definition rmse_test_b64 (add_reduce : list B64.float -> B64.float)
    (y_pred y_test : list B64.float) : result B64.float :=
  mse ← Np.mean_squared_error_b64 add_reduce y_pred y_test;
  Np.math_sqrt_b64 mse.

(** [same_sign_count =
      np.sum(np.sign(y_pred) == np.sign(y_test)) / len(y_test) * 100] *)
Definition same_sign_count (y_pred y_test : list R) : result Np.npfloat :=
  agree ← Np.equal (Np.sign y_pred) (Np.sign y_test);
  Ok (Np.times (Np.true_divide (Np.sum_bool agree) (len y_test)) 100).

(** The two evaluation cells in the order of the notebook: an exception in
    the first ends the run. *)
Definition evaluation (y_pred y_test : list R) : result (R * Np.npfloat) :=
  rmse ← rmse_test y_pred y_test;
  ratio ← same_sign_count y_pred y_test;
  Ok (rmse, ratio).

(** The call of the notebook: [data_preprocessing(data, 5, 0.80)], the
    fraction read as the exact [4/5] ([eighty_percent_b64_index] compares it
    with the float). *)
Definition notebook_split {A} (data : list A)
    : result (list (list A) * list A * list (list A) * list A) :=
  data_preprocessing data 5 (80 # 100).

(** The cells from the loaded table to the split: [np.reshape(data, (-1))],
    [np.diff(data)], then the call above. *)
Definition notebook_pipeline {A} (sub : A -> A -> A) (table : list (list A))
    : result (list (list A) * list A * list (list A) * list A) :=
  let data := Np.reshape_flat table in
  let data := Np.diff sub data in
  notebook_split data.

(** The float [v] gives the split index [floor (n * M / d)] for each of
    the [fuel] counts [M], [M + 1], ... *)
Fixpoint split_index_agrees (v : B64.float) (n d : Z) (fuel : nat) (M : Z)
    : bool :=
  match fuel with
  | O => true
  | S fuel' =>
      match int_times (Float v) M with
      | Ok z => (z =? n * M / d)%Z
      | Err _ => false
      end && split_index_agrees v n d fuel' (M + 1)
  end.

(** What the plotting cell draws of an array: [a[-50:]]. *)
Definition plotted {A} (a : list A) : list A := slice_from a (-50).

(** Running totals from a first value: the inverse of differencing. *)
Fixpoint integrate {A} (add : A -> A -> A) (a0 : A) (d : list A) : list A :=
  match d with
  | [] => [a0]
  | v :: d' => a0 :: integrate add (add a0 v) d'
  end.

(** ** The evaluation formulas, as the specification words them *)

(** The three sign classes: negative, zero, positive. *)
Definition sign_class (v : R) : Z :=
  if Rlt_dec v 0 then (-1)%Z
  else if Rlt_dec 0 v then 1%Z
  else 0%Z.

(** The number of indices [i < M] at which [agree i] holds. *)
Definition count_upto (M : nat) (agree : nat -> bool) : nat :=
  length (filter (fun i => agree i = true) (seq 0 M)).

(** Specification: [DirectionalRatio =
    100 * (count of i with sign(P[i]) == sign(L[i])) / M_test]. *)
Definition spec_directional_ratio (P L : list R) : R :=
  let M := length L in
  (100 * INR (count_upto M (fun i =>
            (sign_class (nth i P 0%R) =? sign_class (nth i L 0%R))%Z))
   / INR M)%R.

(** ** Facts about the Python level *)

Section PyFacts.
Context {A : Type}.
Implicit Types (l : list A) (k : Z) (n : nat).

Lemma clip_of_nat n (i : nat) : clip n (Z.of_nat i) = Nat.min i n.
Proof.
  unfold clip. destruct (Z.ltb_spec (Z.of_nat i) 0); [lia|].
  by rewrite Nat2Z.id.
Qed.

Lemma clip_le n k : clip n k <= n.
Proof. unfold clip. destruct (Z.ltb_spec k 0); lia. Qed.

Lemma slice_of_nat l (i j : nat) :
  i <= j <= length l ->
  slice l (Z.of_nat i) (Z.of_nat j) = take (j - i) (drop i l).
Proof.
  intros Hij. unfold slice. rewrite !clip_of_nat.
  by replace (Nat.min j (length l)) with j by lia;
     replace (Nat.min i (length l)) with i by lia.
Qed.

Lemma index_of_nat l (i : nat) v :
  l !! i = Some v -> index l (Z.of_nat i) = Ok v.
Proof.
  intros Hv. unfold index.
  destruct (Z.ltb_spec (Z.of_nat i) 0); [lia|].
  destruct (Z.ltb_spec (Z.of_nat i) 0); [lia|].
  by rewrite Nat2Z.id, Hv.
Qed.

(** [l[:k] + l[k:] == l] for every integer [k], negative ones included. *)
Lemma slice_to_from l k : slice_to l k ++ slice_from l k = l.
Proof. apply take_drop. Qed.

Lemma length_slice_to l k : length (slice_to l k) = clip (length l) k.
Proof. unfold slice_to. rewrite length_take. pose proof (clip_le (length l) k). lia. Qed.

Lemma length_slice_from l k :
  length (slice_from l k) = length l - clip (length l) k.
Proof. unfold slice_from. by rewrite length_drop. Qed.

Lemma lookup_slice_to l k i :
  i < clip (length l) k -> slice_to l k !! i = l !! i.
Proof. intros Hi. unfold slice_to. by rewrite lookup_take_lt. Qed.

Lemma lookup_slice_from l k j :
  slice_from l k !! j = l !! (clip (length l) k + j).
Proof. unfold slice_from. by rewrite lookup_drop. Qed.

Lemma range_of_nat n : range (Z.of_nat n) = Z.of_nat <$> seq 0 n.
Proof. unfold range. by rewrite Nat2Z.id. Qed.

Lemma range_nonpos k : (k <= 0)%Z -> range k = [].
Proof. intros Hk. unfold range. by replace (Z.to_nat k) with 0 by lia. Qed.

End PyFacts.

(** [int] is the floor on the non-negative rationals. *)
Lemma int_floor (q : Q) : (0 <= q)%Q -> int q = Qfloor q.
Proof.
  destruct q as [a b]. unfold Qle, int, Qfloor. simpl. intros Ha.
  rewrite Z.quot_div_nonneg; lia.
Qed.

(** A fraction of a count lies between zero and the count. *)
Lemma floor_fraction (f : Q) (m : nat) :
  (0 <= f)%Q -> (f <= 1)%Q ->
  (0 <= Qfloor (f * inject_Z (Z.of_nat m)) <= Z.of_nat m)%Z.
Proof.
  intros H0 H1. split.
  - replace 0%Z with (Qfloor 0) by reflexivity.
    apply Qfloor_resp_le. apply Qmult_le_0_compat; [done|].
    unfold Qle; simpl; lia.
  - rewrite <- (Qfloor_Z (Z.of_nat m)) at 2.
    apply Qfloor_resp_le.
    rewrite <- (Qmult_1_l (inject_Z (Z.of_nat m))) at 2.
    apply Qmult_le_compat_r; [done|]. unfold Qle; simpl; lia.
Qed.

(** ** The lag windows *)

Section WindowFacts.
Context {A : Type}.
Implicit Types (data y : list A) (x : list (list A)).

Lemma array2_inv x x' : Np.array2 x = Ok x' -> x' = x.
Proof.
  destruct x as [|r rs]; simpl; [congruence|].
  destruct (forallb _ rs); congruence.
Qed.

Lemma array2_uniform x (m : nat) :
  Forall (fun r => length r = m) x -> Np.array2 x = Ok x.
Proof.
  destruct x as [|r rs]; [done|]. intros Hall. simpl.
  apply Forall_cons in Hall as [Hr Hrs].
  replace (forallb _ rs) with true; [done|].
  symmetry. apply forallb_forall. intros r' Hin.
  rewrite Forall_forall in Hrs.
  apply Nat.eqb_eq. rewrite Hr. apply Hrs. by apply list_elem_of_In.
Qed.

(** Each iteration appends one window and one label, whatever the lag. *)
Lemma window_loop_length data L idx x y x' y' :
  window_loop data L idx x y = Ok (x', y') ->
  length x' = length x + length idx /\ length y' = length y + length idx.
Proof.
  revert x y. induction idx as [|i idx IH]; intros x y; simpl.
  - intros [= <- <-]. lia.
  - destruct (index data (i + L)) as [v|e]; simpl; [|done].
    intros Hloop. apply IH in Hloop. rewrite !length_app in Hloop. simpl in Hloop. lia.
Qed.

(** The loop over the indices [s, s+1, ..., s+n-1], all of them with a full
    window and a label inside [data]. *)
Lemma window_loop_seq data (L s n : nat) x y :
  s + n + L <= length data ->
  window_loop data (Z.of_nat L) (Z.of_nat <$> seq s n) x y
  = Ok (x ++ (window_at data L <$> seq s n), y ++ take n (drop (s + L) data)).
Proof.
  revert s x y. induction n as [|n IH]; intros s x y Hlen; simpl.
  - by rewrite !app_nil_r.
  - rewrite <- Nat2Z.inj_add.
    destruct (lookup_lt_is_Some_2 data (s + L)) as [v Hv]; [lia|].
    rewrite (index_of_nat _ _ _ Hv). simpl.
    rewrite IH by lia. rewrite slice_of_nat by lia.
    rewrite (drop_S _ _ _ Hv). simpl.
    replace (s + L - s) with L by lia.
    by rewrite <- !app_assoc.
Qed.

Lemma length_window_at data (L i : nat) :
  i + L <= length data -> length (window_at data L i) = L.
Proof. intros Hi. unfold window_at. rewrite length_take, length_drop. lia. Qed.

(** The windowed dataset for a non-negative lag, in closed form. *)
Lemma lag_windows_of_nat data (L : nat) :
  lag_windows data (Z.of_nat L)
  = Ok (window_at data L <$> seq 0 (length data - L), drop L data).
Proof.
  unfold lag_windows, len.
  destruct (Nat.le_gt_cases L (length data)) as [Hle|Hgt].
  - rewrite <- Nat2Z.inj_sub by done. rewrite range_of_nat.
    rewrite window_loop_seq by lia. simpl.
    rewrite (array2_uniform _ L).
    + simpl. do 2 f_equal. apply take_ge. rewrite length_drop. lia.
    + apply Forall_fmap, Forall_forall. intros i Hi.
      apply elem_of_seq in Hi. simpl. apply length_window_at. lia.
  - rewrite range_nonpos by lia.
    replace (length data - L) with 0 by lia. simpl.
    by rewrite drop_ge by lia.
Qed.

(** Windows and labels always come in pairs. *)
Lemma lag_windows_paired data L x y :
  lag_windows data L = Ok (x, y) -> length x = length y.
Proof.
  unfold lag_windows.
  destruct (window_loop data L _ [] []) as [[x0 y0]|e] eqn:Hloop; simpl; [|done].
  destruct (Np.array2 x0) as [x1|e] eqn:Harr; simpl; [|done].
  intros [= <- <-]. apply array2_inv in Harr as ->.
  apply window_loop_length in Hloop. simpl in Hloop. lia.
Qed.

End WindowFacts.

(** ** The windowed dataset and its split *)

Section PreprocessingSpec.
Context {A : Type}.
Implicit Types (data y : list A) (x : list (list A)).

(** C1.  For a difference series of length [D] and a lag [L] with
    [1 <= L < D], the windowing part of [data_preprocessing] returns exactly
    [D - L] feature windows and [D - L] labels; window [i] is the slice
    [data[i : i+L]] and label [i] is [data[i+L]]. *)
Theorem lag_windows_spec data (D L : nat) :
  length data = D ->
  1 <= L < D ->
  exists x y,
    lag_windows data (Z.of_nat L) = Ok (x, y) /\
    length x = D - L /\
    length y = D - L /\
    forall i, i < D - L ->
      x !! i = Some (take L (drop i data)) /\
      exists v, data !! (i + L) = Some v /\ y !! i = Some v.
Proof.
  intros HD HL. rewrite lag_windows_of_nat. do 2 eexists. split; [done|].
  rewrite length_fmap, length_seq, length_drop, HD.
  split; [done|]. split; [done|]. intros i Hi. split.
  - rewrite list_lookup_fmap, lookup_seq_lt by done. done.
  - destruct (lookup_lt_is_Some_2 data (i + L)) as [v Hv]; [lia|].
    exists v. split; [done|]. rewrite lookup_drop.
    by rewrite (Nat.add_comm L i).
Qed.


(** The slices at a split index, with the index clipped by the slice rules. *)
Lemma split_at_clip x y (cut : Z) :
  length x = length y ->
  split_at x y cut
  = (take (clip (length x) cut) x, take (clip (length x) cut) y,
     drop (clip (length x) cut) x, drop (clip (length x) cut) y).
Proof. intros Hxy. unfold split_at, slice_to, slice_from. by rewrite Hxy. Qed.

Lemma data_preprocessing_at data (L : Z) (f : num) x y (cut : Z) :
  lag_windows data L = Ok (x, y) ->
  int_times f (len x) = Ok cut ->
  data_preprocessing data L f = Ok (split_at x y cut).
Proof.
  intros Hwin Hcut. unfold data_preprocessing, train_test.
  rewrite Hwin. simpl. rewrite Hcut. done.
Qed.


End PreprocessingSpec.

Lemma lag_windows_spec_witness :
  exists x y,
    lag_windows [2; -1; 4; 3; -1]%Z (Z.of_nat 2) = Ok (x, y) /\
    length x = 5 - 2 /\
    length y = 5 - 2 /\
    forall i, i < 5 - 2 ->
      x !! i = Some (take 2 (drop i [2; -1; 4; 3; -1]%Z)) /\
      exists v, [2; -1; 4; 3; -1]%Z !! (i + 2) = Some v /\ y !! i = Some v.
Proof. apply (lag_windows_spec [2; -1; 4; 3; -1]%Z 5 2); [reflexivity | lia]. Defined.




(** ** No input validation in [data_preprocessing] *)

(** C3, as stated, fails: with as many lags as data points the function
    returns four empty arrays, and with a cut of zero it returns an empty
    training block; neither call raises. *)
Lemma data_preprocessing_returns_empty :
  data_preprocessing [2; -1]%Z 2 (Float (B64.of_decimal 8 10))
  = Ok ([], [], [], []) /\
  ~ raises (data_preprocessing [2; -1]%Z 2 (Float (B64.of_decimal 8 10))) /\
  data_preprocessing [2; -1; 4]%Z 2 (Float (B64.of_decimal 8 10))
  = Ok ([], [], [[2; -1]], [4])%Z /\
  ~ raises (data_preprocessing [2; -1; 4]%Z 2 (Float (B64.of_decimal 8 10))).
Proof.
  repeat split; try (vm_compute; reflexivity);
    intros [e He]; vm_compute in He; discriminate He.
Qed.

Section NoValidation.
Context {A : Type}.
Implicit Types (data y : list A) (x : list (list A)).

Lemma int_times_finite_zero (f : num) :
  match f with Frac _ => True | Float v => B64.is_finite v = true end ->
  int_times f 0 = Ok 0%Z.
Proof.
  destruct f as [q|v]; intros Hfin.
  - simpl. f_equal. destruct q as [a b]. unfold int. simpl.
    rewrite Z.mul_0_r. done.
  - destruct v; try discriminate Hfin; reflexivity.
Qed.

Lemma int_times_errors (f : num) (n : Z) (e : exn) :
  int_times f n = Err e -> e = OverflowError \/ e = ValueError.
Proof.
  destruct f as [q|v]; simpl; [done|].
  unfold float_of_int.
  destruct (B64.of_Z n); simpl;
    try (intros [= <-]; by auto);
    destruct (B64.mul v _); simpl;
    intros [= <-]; by auto.
Qed.

(** C3, amended.  [data_preprocessing] validates neither the lag count nor
    the split.  For a lag [L >= 0] the windowing never raises.  With
    [L >= len(data)] and a finite fraction the result is four empty arrays.
    Whenever the split index [cut = int(f * M)] is computed (it always is
    for an exact rational [f]): a cut of [0] gives an empty training block
    and the whole dataset as test block, a cut of [M] the whole dataset as
    training block and an empty test block.  The only exceptions are the
    [OverflowError] and [ValueError] of [int()] on an infinite or NaN
    product. *)
Theorem data_preprocessing_total data (L : Z) (f : num) :
  (0 <= L)%Z ->
  exists x y,
    lag_windows data L = Ok (x, y) /\
    ((len data <= L)%Z ->
       match f with Frac _ => True | Float v => B64.is_finite v = true end ->
       x = [] /\ y = [] /\ data_preprocessing data L f = Ok ([], [], [], [])) /\
    (int_times f (len x) = Ok 0%Z ->
       data_preprocessing data L f = Ok ([], [], x, y)) /\
    (int_times f (len x) = Ok (len x) ->
       data_preprocessing data L f = Ok (x, y, [], [])) /\
    (forall q, f = Frac q -> exists cut, int_times f (len x) = Ok cut) /\
    (forall e, data_preprocessing data L f = Err e ->
       int_times f (len x) = Err e /\ (e = OverflowError \/ e = ValueError)).
Proof.
  intros HL. rewrite <- (Z2Nat.id L HL).
  pose proof (lag_windows_of_nat data (Z.to_nat L)) as Hwin.
  pose proof (lag_windows_paired _ _ _ _ Hwin) as Hxy.
  set (x := window_at data (Z.to_nat L) <$> _) in *.
  set (y := drop (Z.to_nat L) data) in *.
  exists x, y. split; [exact Hwin|].
  split; [|split; [|split; [|split]]].
  - unfold len. intros Hle Hfin. subst x y.
    replace (length data - Z.to_nat L) with 0 in * by lia.
    rewrite drop_ge in * by lia. simpl in *.
    split; [done|]. split; [done|].
    rewrite (data_preprocessing_at _ _ _ _ _ 0%Z Hwin); [done|].
    by apply int_times_finite_zero.
  - intros Hcut. rewrite (data_preprocessing_at _ _ _ _ _ _ Hwin Hcut). done.
  - intros Hcut. rewrite (data_preprocessing_at _ _ _ _ _ _ Hwin Hcut).
    rewrite split_at_clip by done. unfold len.
    rewrite clip_of_nat, Nat.min_id.
    by rewrite !take_ge, !drop_ge by lia.
  - intros q ->. simpl. eauto.
  - intros e. unfold data_preprocessing, train_test. rewrite Hwin. simpl.
    destruct (int_times f (len x)) as [cut|e'] eqn:Hcut; simpl; [done|].
    intros [= <-]. split; [done|]. by eapply int_times_errors.
Qed.

End NoValidation.

Lemma data_preprocessing_total_witness :
  exists x y,
    lag_windows [2; -1; 4]%Z 3 = Ok (x, y) /\
    data_preprocessing [2; -1; 4]%Z 3 (Float (B64.of_decimal 8 10))
    = Ok ([], [], [], []).
Proof.
  destruct (data_preprocessing_total [2; -1; 4]%Z 3 (Float (B64.of_decimal 8 10)))
    as (x & y & Hw & Hempty & _); [lia|].
  exists x, y. split; [assumption|].
  apply Hempty; [vm_compute; discriminate | reflexivity].
Defined.

(** ** The worked example *)

(** C9.  On [100, 102, 101, 105, 108, 107] the differences are
    [2, -1, 4, 3, -1]; two lags give the three pairs [([2,-1], 4)],
    [([-1,4], 3)], [([4,3], -1)]; the fraction [0.67] cuts at
    [floor (0.67 * 3) = 2], leaving two training pairs and one test pair.
    The same holds when [0.67] is the binary64 float of that literal. *)
Theorem worked_example :
  Np.diff Z.sub [100; 102; 101; 105; 108; 107]%Z = [2; -1; 4; 3; -1]%Z /\
  lag_windows [2; -1; 4; 3; -1]%Z 2
  = Ok ([[2; -1]; [-1; 4]; [4; 3]], [4; 3; -1])%Z /\
  int ((67 # 100) * inject_Z (len [[2; -1]; [-1; 4]; [4; 3]]%Z)) = 2%Z /\
  Qfloor ((67 # 100) * inject_Z 3) = 2%Z /\
  data_preprocessing (Np.diff Z.sub [100; 102; 101; 105; 108; 107]%Z) 2 (67 # 100)
  = Ok ([[2; -1]; [-1; 4]], [4; 3], [[4; 3]], [-1])%Z /\
  B64.of_decimal 67 100 = S754_finite false 6034823500676465 (-53) /\
  int_times (Float (B64.of_decimal 67 100)) 3 = Ok 2%Z /\
  data_preprocessing (Np.diff Z.sub [100; 102; 101; 105; 108; 107]%Z) 2
    (Float (B64.of_decimal 67 100))
  = Ok ([[2; -1]; [-1; 4]], [4; 3], [[4; 3]], [-1])%Z.
Proof. repeat split; vm_compute; reflexivity. Qed.

(** ** The differencer *)

Section DiffSpec.
Context {A : Type} (sub : A -> A -> A).
Implicit Types (raw : list A).

Lemma diff_unfold raw :
  Np.diff sub raw = zip_with sub (drop 1 raw) (take (length raw - 1) raw).
Proof.
  unfold Np.diff, slice_from, slice_to, clip. simpl.
  replace (Z.to_nat (Z.of_nat (length raw) + -1)) with (length raw - 1) by lia.
  destruct raw as [|a [|b raw]]; done.
Qed.

Lemma length_diff raw : length (Np.diff sub raw) = length raw - 1.
Proof.
  rewrite diff_unfold, length_zip_with, length_drop, length_take. lia.
Qed.

Lemma lookup_diff raw i a b :
  raw !! i = Some a -> raw !! (i + 1) = Some b ->
  Np.diff sub raw !! i = Some (sub b a).
Proof.
  intros Ha Hb. rewrite diff_unfold, lookup_zip_with, lookup_drop.
  rewrite (Nat.add_comm 1 i), Hb. simpl.
  apply lookup_lt_Some in Hb.
  rewrite lookup_take_lt by lia. by rewrite Ha.
Qed.

(** C5.  For a series of length [N >= 2] the differencer returns a series of
    length [N - 1] whose element [i] is [raw[i+1] - raw[i]].  It is a
    function of its argument alone. *)
Theorem diff_spec raw (N : nat) :
  length raw = N ->
  2 <= N ->
  length (Np.diff sub raw) = N - 1 /\
  forall i, i < N - 1 ->
    exists a b,
      raw !! i = Some a /\ raw !! (i + 1) = Some b /\
      Np.diff sub raw !! i = Some (sub b a).
Proof.
  intros HN H2. split; [by rewrite length_diff, HN|].
  intros i Hi.
  destruct (lookup_lt_is_Some_2 raw i) as [a Ha]; [lia|].
  destruct (lookup_lt_is_Some_2 raw (i + 1)) as [b Hb]; [lia|].
  exists a, b. split; [done|]. split; [done|]. by apply lookup_diff.
Qed.

(** C6, amended.  For a series of fewer than two values the differencer
    returns the empty series; nothing is raised. *)
Theorem diff_short raw :
  length raw < 2 ->
  Np.diff sub raw = [].
Proof.
  intros Hlen. apply length_zero_iff_nil. rewrite length_diff. lia.
Qed.

End DiffSpec.

Lemma diff_spec_witness :
  length (Np.diff Z.sub [100; 102; 101; 105; 108; 107]%Z) = 6 - 1 /\
  forall i, i < 6 - 1 ->
    exists a b,
      [100; 102; 101; 105; 108; 107]%Z !! i = Some a /\
      [100; 102; 101; 105; 108; 107]%Z !! (i + 1) = Some b /\
      Np.diff Z.sub [100; 102; 101; 105; 108; 107]%Z !! i = Some (Z.sub b a).
Proof.
  apply (diff_spec Z.sub [100; 102; 101; 105; 108; 107]%Z 6); [reflexivity | lia].
Defined.

(** C6, as stated, fails: a series of one value, and the empty series, are
    differenced to the empty series instead of being rejected. *)
Lemma diff_of_singleton :
  Np.diff Z.sub [100]%Z = [] /\ Np.diff Z.sub [] = [].
Proof. split; reflexivity. Qed.

Lemma diff_short_witness : Np.diff Z.sub [100]%Z = [].
Proof. apply (diff_short Z.sub [100]%Z). simpl. lia. Defined.

(** ** The evaluation metrics *)

Section ByIndex.
Context {A B C : Type} (f : A -> B -> C) (da : A) (db : B).

(** An element-wise operation on two arrays of one length, read index by
    index. *)
Lemma zip_with_by_index (a : list A) (b : list B) :
  length a = length b ->
  zip_with f a b = (fun i => f (nth i a da) (nth i b db)) <$> seq 0 (length b).
Proof.
  intros Hlen. apply list_eq. intros i.
  rewrite lookup_zip_with, list_lookup_fmap.
  destruct (Nat.lt_ge_cases i (length b)) as [Hi|Hi].
  - rewrite lookup_seq_lt by done. simpl.
    destruct (lookup_lt_is_Some_2 a i) as [u Hu]; [lia|].
    destruct (lookup_lt_is_Some_2 b i) as [v Hv]; [lia|].
    rewrite !nth_lookup, Hu, Hv. done.
  - rewrite lookup_seq_ge by done. simpl.
    rewrite (lookup_ge_None_2 a) by lia. done.
Qed.

End ByIndex.

Lemma sum_square_nonneg (a : list R) : (0 <= Np.sum (Np.square a))%R.
Proof.
  induction a as [|v a IH]; [simpl; lra|].
  change (Np.sum (Np.square (v :: a)))
    with (v * v + Np.sum (Np.square a))%R.
  pose proof (Rle_0_sqr v) as Hsq. unfold Rsqr in Hsq. lra.
Qed.

Lemma sign1_cases (v : R) :
  (v < 0 /\ Np.sign1 v = (-1) /\ sign_class v = (-1)%Z)%R \/
  (v = 0 /\ Np.sign1 v = 0 /\ sign_class v = 0%Z)%R \/
  (0 < v /\ Np.sign1 v = 1 /\ sign_class v = 1%Z)%R.
Proof.
  unfold Np.sign1, sign_class.
  destruct (Rlt_dec v 0) as [Hn|Hn]; [by left|].
  destruct (Rlt_dec 0 v) as [Hp|Hp]; [by right; right|].
  right; left. repeat split. lra.
Qed.


(** Comparing the float signs is comparing the sign classes. *)
Lemma eqb1_sign (p l : R) :
  Np.eqb1 (Np.sign1 p) (Np.sign1 l) = (sign_class p =? sign_class l)%Z.
Proof.
  destruct (sign1_cases p) as [(_ & -> & ->)|[(_ & -> & ->)|(_ & -> & ->)]];
  destruct (sign1_cases l) as [(_ & -> & ->)|[(_ & -> & ->)|(_ & -> & ->)]];
  simpl; unfold Np.eqb1;
  match goal with |- (if ?d then _ else _) = _ => destruct d as [He|He] end;
  first [reflexivity | lra].
Qed.

Lemma equal_same_length (a b : list R) :
  length a = length b -> Np.equal a b = Ok (zip_with Np.eqb1 a b).
Proof. intros Hlen. unfold Np.equal. by rewrite Hlen, Nat.eqb_refl. Qed.

Lemma sum_bool_fmap {I : Type} (h : I -> bool) (l : list I) :
  Np.sum_bool (h <$> l) = Z.of_nat (length (filter (fun i => h i = true) l)).
Proof.
  unfold Np.sum_bool. f_equal.
  induction l as [|i l IH]; [done|].
  rewrite fmap_cons, !filter_cons.
  destruct (decide (h i = true)); simpl; by rewrite IH.
Qed.

Lemma sum_bool_bounds (m : list bool) :
  (0 <= Np.sum_bool m <= Z.of_nat (length m))%Z.
Proof.
  unfold Np.sum_bool.
  pose proof (length_filter (fun b : bool => b = true) m). lia.
Qed.

(** The agreement mask of two arrays of one length, read index by index. *)
Lemma sign_agreement_by_index (P L : list R) :
  length P = length L ->
  Np.equal (Np.sign P) (Np.sign L)
  = Ok ((fun i => (sign_class (nth i P 0%R) =? sign_class (nth i L 0%R))%Z)
          <$> seq 0 (length L)).
Proof.
  intros Hlen. unfold Np.sign.
  rewrite equal_same_length by (by rewrite !length_fmap).
  rewrite zip_with_fmap_l, zip_with_fmap_r.
  rewrite (zip_with_by_index _ 0%R 0%R) by done.
  f_equal. apply list_fmap_ext. intros _ i _. apply eqb1_sign.
Qed.

(** C8.  For predictions and labels of one length [M_test >= 1] the
    directional-ratio cell returns
    [100 * (number of i with sign(P[i]) == sign(L[i])) / M_test], a value
    between 0 and 100. *)
Theorem directional_ratio_spec (y_pred y_test : list R) :
  length y_pred = length y_test ->
  1 <= length y_test ->
  exists r,
    same_sign_count y_pred y_test = Ok (Np.Fin r) /\
    r = spec_directional_ratio y_pred y_test /\
    (0 <= r <= 100)%R.
Proof.
  intros Hlen Hpos.
  assert (HM : (0 < INR (length y_test))%R) by (apply lt_0_INR; lia).
  unfold same_sign_count. rewrite sign_agreement_by_index by done. simpl.
  set (agree := fun i : nat => (sign_class _ =? sign_class _)%Z).
  pose proof (sum_bool_bounds (agree <$> seq 0 (length y_test))) as Hb.
  rewrite length_fmap, length_seq in Hb.
  unfold Np.true_divide, len.
  destruct (Z.eqb_spec (Z.of_nat (length y_test)) 0) as [H0|_]; [lia|]. simpl.
  eexists. split; [reflexivity|].
  rewrite <- INR_IZR_INZ.
  assert (Hc : (0 <= IZR (Np.sum_bool (agree <$> seq 0 (length y_test)))
                <= INR (length y_test))%R).
  { rewrite INR_IZR_INZ. split; apply IZR_le; lia. }
  split.
  - unfold spec_directional_ratio, count_upto. fold agree.
    rewrite sum_bool_fmap, <- INR_IZR_INZ. unfold agree. field. lra.
  - split.
    + apply Rmult_le_pos; [|lra]. apply Rle_mult_inv_pos; lra.
    + apply (Rmult_le_reg_r (INR (length y_test))); [done|].
      replace (_ / _ * 100 * _)%R
        with (100 * IZR (Np.sum_bool (agree <$> seq 0 (length y_test))))%R
        by (field; lra).
      lra.
Qed.

Lemma directional_ratio_spec_witness :
  exists r,
    same_sign_count [1; -2; 3]%R [1; -2; -3]%R = Ok (Np.Fin r) /\
    r = spec_directional_ratio [1; -2; 3]%R [1; -2; -3]%R /\
    (0 <= r <= 100)%R.
Proof.
  apply (directional_ratio_spec [1; -2; 3]%R [1; -2; -3]%R);
    [reflexivity | simpl; lia].
Defined.

(** ** The evaluation scenario of the specification

    Predictions [1, -2, 3] against labels [1, -2, -3]: the RMSE is
    [sqrt 12] and two of the three signs agree. *)

Example rmse_scenario :
  rmse_test [1; -2; 3]%R [1; -2; -3]%R = Ok (sqrt 12).
Proof.
  unfold rmse_test, Np.mean_squared_error. simpl.
  replace (Np.average _) with 12%R
    by (unfold Np.average, Np.square, Np.subtract, Np.sum; simpl; field).
  unfold Np.math_sqrt. destruct (Rlt_dec 12 0) as [Hneg|_]; [lra|done].
Qed.

Example directional_ratio_scenario :
  same_sign_count [1; -2; 3]%R [1; -2; -3]%R = Ok (Np.Fin (2 / 3 * 100)).
Proof.
  unfold same_sign_count.
  rewrite sign_agreement_by_index by reflexivity. simpl.
  assert (H1 : sign_class 1 = 1%Z).
  { destruct (sign1_cases 1) as [(H & _)|[(H & _)|(_ & _ & ->)]]; [lra|lra|done]. }
  assert (H2 : sign_class (-2) = (-1)%Z).
  { destruct (sign1_cases (-2)) as [(_ & _ & ->)|[(H & _)|(H & _)]]; [done|lra|lra]. }
  assert (H3 : sign_class 3 = 1%Z).
  { destruct (sign1_cases 3) as [(H & _)|[(H & _)|(_ & _ & ->)]]; [lra|lra|done]. }
  assert (H4 : sign_class (-3) = (-1)%Z).
  { destruct (sign1_cases (-3)) as [(_ & _ & ->)|[(H & _)|(H & _)]]; [done|lra|lra]. }
  rewrite H1, H2, H3, H4. reflexivity.
Qed.

(** * Further properties of the notebook's code *)

(** ** [data_preprocessing]: what it raises and when *)

Section Raising.
Context {A : Type}.
Implicit Types (data y : list A) (x : list (list A)).

Lemma index_in_range data (k : Z) :
  (- len data <= k < len data)%Z -> exists v, index data k = Ok v.
Proof.
  unfold index, len. intros Hk.
  destruct (Z.ltb_spec k 0) as [Hneg|Hpos].
  - destruct (Z.ltb_spec (Z.of_nat (length data) + k) 0); [lia|].
    destruct (lookup_lt_is_Some_2 data (Z.to_nat (Z.of_nat (length data) + k)))
      as [v Hv]; [lia|].
    exists v. by rewrite Hv.
  - destruct (Z.ltb_spec k 0); [lia|].
    destruct (lookup_lt_is_Some_2 data (Z.to_nat k)) as [v Hv]; [lia|].
    exists v. by rewrite Hv.
Qed.

Lemma index_below data (k : Z) :
  (k < - len data)%Z -> index data k = Err IndexError.
Proof.
  unfold index, len. intros Hk.
  destruct (Z.ltb_spec k 0); [|lia].
  by destruct (Z.ltb_spec (Z.of_nat (length data) + k) 0); [|lia].
Qed.

(** The loop runs to its end when every label index is inside the data. *)
Lemma window_loop_in_range data (L : Z) idx x y :
  Forall (fun i => - len data <= i + L < len data)%Z idx ->
  exists x' y', window_loop data L idx x y = Ok (x', y').
Proof.
  intros Hidx. revert x y.
  induction Hidx as [|i idx Hi _ IH]; intros x y; simpl; [by eauto|].
  destruct (index_in_range data (i + L) Hi) as [v ->]. simpl. apply IH.
Qed.

Lemma range_cons (n : Z) :
  (0 < n)%Z -> exists idx, range n = 0%Z :: idx.
Proof.
  intros Hn. unfold range.
  destruct (Z.to_nat n) as [|m] eqn:Hm; [lia|]. simpl. eauto.
Qed.

Lemma range_bounds (n : Z) : Forall (fun i => 0 <= i < n)%Z (range n).
Proof.
  unfold range. apply Forall_fmap, Forall_forall. intros i Hi.
  apply elem_of_seq in Hi. simpl. lia.
Qed.

(** X1.  [data_preprocessing] raises [IndexError] exactly when the lag count
    is below [-len(data)]: then already [data[0 + num_lags]] is out of range.
    For every other lag count every label index of the loop is valid. *)
Theorem data_preprocessing_index_error data (num_lags : Z) (f : num) :
  data_preprocessing data num_lags f = Err IndexError
  <-> (num_lags < - len data)%Z.
Proof.
  unfold data_preprocessing, lag_windows. split.
  - intros Hrun.
    destruct (Z.lt_ge_cases num_lags (- len data)) as [|Hge]; [done|].
    exfalso.
    destruct (window_loop_in_range data num_lags
                (range (len data - num_lags)) [] []) as (x' & y' & Hloop).
    { eapply Forall_impl; [apply range_bounds|]. simpl. intros i Hi. lia. }
    rewrite Hloop in Hrun. simpl in Hrun.
    assert (Hsplit : forall x0 : list (list A),
              train_test x0 y' f <> Err IndexError).
    { intros x0. unfold train_test.
      destruct (int_times f (len x0)) as [cut|e] eqn:Hcut; simpl; [done|].
      intros [= ->]. by destruct (int_times_errors _ _ _ Hcut). }
    destruct x' as [|r rs]; simpl in Hrun; [by apply Hsplit in Hrun|].
    destruct (forallb _ rs); simpl in Hrun; [by apply Hsplit in Hrun|done].
  - intros Hlt.
    destruct (range_cons (len data - num_lags)) as [idx ->].
    { unfold len in *. lia. }
    simpl. by rewrite index_below.
Qed.

End Raising.

(** ** [data_preprocessing]: the split for every fraction *)

Section AnyFraction.
Context {A : Type}.
Implicit Types (data y : list A) (x : list (list A)).

Lemma data_preprocessing_inv data (L : Z) (f : num) x_train y_train x_test y_test :
  data_preprocessing data L f = Ok (x_train, y_train, x_test, y_test) ->
  exists x y cut,
    lag_windows data L = Ok (x, y) /\
    length x = length y /\
    int_times f (len x) = Ok cut /\
    x_train = slice_to x cut /\
    y_train = slice_to y cut /\
    x_test = slice_from x cut /\
    y_test = slice_from y cut.
Proof.
  unfold data_preprocessing, train_test.
  destruct (lag_windows data L) as [[x y]|e] eqn:Hwin; simpl; [|done].
  destruct (int_times f (len x)) as [cut|e] eqn:Hcut; simpl; [|done].
  unfold split_at. intros [= <- <- <- <-].
  exists x, y, cut. split; [done|]. split; [|done].
  by eapply lag_windows_paired.
Qed.

(** X2.  Whatever the lag count and the fraction (negative, or above one),
    a returned split is paired and lossless: features and labels have the
    same length in each block, and the training block followed by the test
    block is the windowed dataset, in its order. *)
Theorem split_paired_and_lossless data (L : Z) (f : num)
    x_train y_train x_test y_test :
  data_preprocessing data L f = Ok (x_train, y_train, x_test, y_test) ->
  length x_train = length y_train /\
  length x_test = length y_test /\
  lag_windows data L = Ok (x_train ++ x_test, y_train ++ y_test).
Proof.
  intros Hrun.
  apply data_preprocessing_inv in Hrun
    as (x & y & cut & Hwin & Hxy & _ & -> & -> & -> & ->).
  rewrite !length_slice_to, !length_slice_from, !slice_to_from, Hxy.
  done.
Qed.

Lemma int_frac_ge_one (q : Q) (n : nat) :
  (1 <= q)%Q -> (Z.of_nat n <= int (q * inject_Z (Z.of_nat n)))%Z.
Proof.
  intros Hq. rewrite int_floor.
  - rewrite <- (Qfloor_Z (Z.of_nat n)) at 1.
    apply Qfloor_resp_le.
    rewrite <- (Qmult_1_l (inject_Z (Z.of_nat n))) at 1.
    apply Qmult_le_compat_r; [done|]. unfold Qle; simpl; lia.
  - apply Qmult_le_0_compat; [|unfold Qle; simpl; lia].
    apply Qle_trans with 1%Q; [done|exact Hq].
Qed.

(** X3.  A split index at or beyond the number of pairs is clipped: every
    pair goes to the training block and the test block is empty.  Every
    exact rational fraction of one or more gives such an index. *)
Theorem split_fraction_ge_one data (L : Z) (f : num) x y (cut : Z) :
  lag_windows data L = Ok (x, y) ->
  int_times f (len x) = Ok cut ->
  ((len x <= cut)%Z -> data_preprocessing data L f = Ok (x, y, [], [])) /\
  (forall q : Q, f = Frac q -> (1 <= q)%Q -> (len x <= cut)%Z).
Proof.
  intros Hwin Hcut.
  pose proof (lag_windows_paired _ _ _ _ Hwin) as Hxy.
  split.
  - intros Hge. rewrite (data_preprocessing_at _ _ _ _ _ _ Hwin Hcut).
    rewrite split_at_clip by done.
    assert (Hclip : clip (length x) cut = length x).
    { unfold clip, len in *. destruct (Z.ltb_spec cut 0); lia. }
    rewrite Hclip. by rewrite !take_ge, !drop_ge by lia.
  - intros q -> Hq. simpl in Hcut. injection Hcut as <-.
    unfold len. by apply int_frac_ge_one.
Qed.

(** X4.  A negative split index counts from the end: with [cut = -k], the
    test block is the last [k] pairs when [k <= M], and the whole dataset
    when [k > M].  A negative exact rational fraction gives
    [cut = - floor (-f * M)]. *)
Theorem split_negative_fraction data (L : Z) (f : num) x y (cut : Z) :
  lag_windows data L = Ok (x, y) ->
  int_times f (len x) = Ok cut ->
  (cut < 0)%Z ->
  let M := length x in
  let c := M - Z.to_nat (- cut) in
  data_preprocessing data L f = Ok (take c x, take c y, drop c x, drop c y) /\
  (forall q : Q, f = Frac q ->
     cut = (- Qfloor (- q * inject_Z (Z.of_nat M)))%Z).
Proof.
  intros Hwin Hcut Hneg M c.
  pose proof (lag_windows_paired _ _ _ _ Hwin) as Hxy.
  split.
  - rewrite (data_preprocessing_at _ _ _ _ _ _ Hwin Hcut).
    rewrite split_at_clip by done. fold M.
    assert (Hclip : clip M cut = c).
    { unfold clip, c. destruct (Z.ltb_spec cut 0); lia. }
    by rewrite Hclip.
  - intros q ->. simpl in Hcut. injection Hcut as <-.
    unfold len in *. fold M in Hneg |- *.
    destruct q as [a b]. unfold int, Qfloor, Qmult, Qopp, inject_Z in *.
    cbn [Qnum Qden] in *.
    set (d := Z.pos (b * 1)) in *.
    assert (Hd : (0 < d)%Z) by (unfold d; lia).
    assert (Ha : (a * Z.of_nat M < 0)%Z).
    { destruct (Z.lt_ge_cases (a * Z.of_nat M) 0) as [|Hge]; [done|].
      pose proof (Z.quot_pos (a * Z.of_nat M) d Hge Hd). lia. }
    replace (a * Z.of_nat M)%Z with (- (- a * Z.of_nat M))%Z by lia.
    rewrite Z.quot_opp_l by lia. rewrite Z.quot_div_nonneg by lia. done.
Qed.

End AnyFraction.

Lemma split_paired_and_lossless_witness :
  length [[2; -1]; [-1; 4]]%Z = length [4; 3]%Z /\
  length [[4; 3]]%Z = length [-1]%Z /\
  lag_windows [2; -1; 4; 3; -1]%Z 2
  = Ok ([[2; -1]; [-1; 4]] ++ [[4; 3]], [4; 3] ++ [-1])%Z.
Proof.
  apply (split_paired_and_lossless [2; -1; 4; 3; -1]%Z 2
           (Float (B64.of_decimal 67 100))).
  reflexivity.
Defined.

Lemma split_fraction_ge_one_witness :
  data_preprocessing [2; -1; 4; 3; -1]%Z 2 (Float (B64.of_decimal 15 10))
  = Ok ([[2; -1]; [-1; 4]; [4; 3]], [4; 3; -1], [], [])%Z.
Proof.
  destruct (split_fraction_ge_one [2; -1; 4; 3; -1]%Z 2
              (Float (B64.of_decimal 15 10))
              [[2; -1]; [-1; 4]; [4; 3]]%Z [4; 3; -1]%Z 4)
    as [Hrun _]; [reflexivity | reflexivity |].
  apply Hrun. vm_compute. discriminate.
Defined.

Lemma split_negative_fraction_witness :
  data_preprocessing [2; -1; 4; 3; -1]%Z 2 (Float (B64.of_decimal (-1) 3))
  = Ok ([[2; -1]; [-1; 4]], [4; 3], [[4; 3]], [-1])%Z.
Proof.
  destruct (split_negative_fraction [2; -1; 4; 3; -1]%Z 2
              (Float (B64.of_decimal (-1) 3))
              [[2; -1]; [-1; 4]; [4; 3]]%Z [4; 3; -1]%Z (-1))
    as [Hrun _]; [reflexivity | reflexivity | lia |].
  exact Hrun.
Defined.

(** ** [data_preprocessing]: the blocks in closed form *)

Section ClosedForm.
Context {A : Type}.
Implicit Types (data y : list A) (x : list (list A)).

Lemma clip_floor_fraction (f : Q) (M n : nat) :
  (0 <= f)%Q -> (f <= 1)%Q -> n = M ->
  clip n (int (f * inject_Z (Z.of_nat M)))
  = Z.to_nat (Qfloor (f * inject_Z (Z.of_nat M))).
Proof.
  intros H0 H1 ->. pose proof (floor_fraction f M H0 H1) as Hfl.
  rewrite int_floor.
  - unfold clip. destruct (Z.ltb_spec (Qfloor (f * inject_Z (Z.of_nat M))) 0); lia.
  - apply Qmult_le_0_compat; [done|]. unfold Qle; simpl; lia.
Qed.

(** The blocks for a lag [L >= 0] and a split index inside [0 .. M]. *)
Lemma blocks_at data (L : nat) (f : num) (cut : nat) :
  int_times f (Z.of_nat (length data - L)) = Ok (Z.of_nat cut) ->
  cut <= length data - L ->
  data_preprocessing data (Z.of_nat L) f
  = Ok ((fun i => take L (drop i data)) <$> seq 0 cut,
        take cut (drop L data),
        (fun i => take L (drop i data)) <$> seq cut (length data - L - cut),
        drop (L + cut) data).
Proof.
  intros Hcut Hle.
  pose proof (lag_windows_of_nat data L) as Hwin.
  pose proof (lag_windows_paired _ _ _ _ Hwin) as Hxy.
  rewrite (data_preprocessing_at _ _ _ _ _ (Z.of_nat cut) Hwin).
  - rewrite split_at_clip by done.
    rewrite length_fmap, length_seq, clip_of_nat.
    replace (Nat.min cut (length data - L)) with cut by lia.
    rewrite <- fmap_take, <- fmap_drop, take_seq, drop_seq, drop_drop.
    by replace (Nat.min cut (length data - L)) with cut by lia.
  - unfold len. by rewrite length_fmap, length_seq.
Qed.

(** X5.  For a lag [L >= 0], [M = len(data) - L] pairs and a computed split
    index [cut] with [0 <= cut <= M]: the training windows start at the
    indices [0 .. cut-1] and their labels are [data[L : L+cut]]; the test
    windows start at [cut .. M-1] and their labels are [data[L+cut :]].  No
    value at index [L + cut] or later enters the training block.  An exact
    rational fraction in [[0,1]] gives [cut = floor (f * M)], inside
    [0 .. M]. *)
Theorem data_preprocessing_closed_form data (L : nat) (f : num) (cut : nat) :
  let M := length data - L in
  int_times f (Z.of_nat M) = Ok (Z.of_nat cut) ->
  cut <= M ->
  data_preprocessing data (Z.of_nat L) f
  = Ok ((fun i => take L (drop i data)) <$> seq 0 cut,
        take cut (drop L data),
        (fun i => take L (drop i data)) <$> seq cut (M - cut),
        drop (L + cut) data) /\
  (forall q : Q, (0 <= q)%Q -> (q <= 1)%Q ->
     exists cut' : nat,
       int_times (Frac q) (Z.of_nat M) = Ok (Z.of_nat cut') /\
       Z.of_nat cut' = Qfloor (q * inject_Z (Z.of_nat M)) /\
       cut' <= M).
Proof.
  intros M Hcut Hle. split; [by apply blocks_at|].
  intros q H0 H1. pose proof (floor_fraction q M H0 H1) as Hfl.
  exists (Z.to_nat (Qfloor (q * inject_Z (Z.of_nat M)))).
  unfold int_times. rewrite int_floor.
  - rewrite Z2Nat.id by lia. split; [done|]. split; [done|]. lia.
  - apply Qmult_le_0_compat; [done|]. unfold Qle; simpl; lia.
Qed.

(** X6.  For a lag [L >= 0] every feature row of both blocks has exactly
    [L] entries, whatever the fraction. *)
Theorem feature_rows_have_num_lags data (L : nat) (f : num)
    x_train y_train x_test y_test :
  data_preprocessing data (Z.of_nat L) f
  = Ok (x_train, y_train, x_test, y_test) ->
  Forall (fun row => length row = L) x_train /\
  Forall (fun row => length row = L) x_test.
Proof.
  intros Hrun.
  apply data_preprocessing_inv in Hrun
    as (x & y & cut & Hwin & _ & _ & -> & _ & -> & _).
  rewrite lag_windows_of_nat in Hwin. injection Hwin as <- _.
  assert (Hall : Forall (fun row : list A => length row = L)
                   (window_at data L <$> seq 0 (length data - L))).
  { apply Forall_fmap, Forall_forall. intros i Hi.
    apply elem_of_seq in Hi. simpl. apply length_window_at. lia. }
  split; [by apply Forall_take | by apply Forall_drop].
Qed.

(** X7.  Consecutive windows slide by one position: for a lag [L >= 1],
    window [i+1] is window [i] without its first entry, followed by label
    [i]. *)
Theorem windows_slide data (L : nat) x y (i : nat) w v w' :
  1 <= L ->
  lag_windows data (Z.of_nat L) = Ok (x, y) ->
  x !! i = Some w -> y !! i = Some v -> x !! S i = Some w' ->
  w' = drop 1 w ++ [v].
Proof.
  intros HL Hwin Hw Hv Hw'.
  rewrite lag_windows_of_nat in Hwin. injection Hwin as <- <-.
  rewrite list_lookup_fmap in Hw, Hw'.
  destruct (seq 0 (length data - L) !! i) as [j|] eqn:Hj; [|done].
  destruct (seq 0 (length data - L) !! S i) as [j'|] eqn:Hj'; [|done].
  apply lookup_seq in Hj as [-> Hi]. apply lookup_seq in Hj' as [-> Hi'].
  simpl in Hw, Hw'. injection Hw as <-. injection Hw' as <-.
  rewrite lookup_drop in Hv. unfold window_at.
  destruct (lookup_lt_is_Some_2 data i) as [a Ha]; [lia|].
  rewrite (drop_S _ _ _ Ha).
  destruct L as [|L']; [lia|]. simpl. rewrite drop_0.
  apply take_S_r. rewrite lookup_drop. rewrite <- Hv. f_equal. lia.
Qed.

(** X8.  The series can be read back from the windowed dataset: for
    [0 <= L < len(data)], the first window followed by all the labels is
    [data]. *)
Theorem first_window_and_labels data (L : nat) x y :
  L < length data ->
  lag_windows data (Z.of_nat L) = Ok (x, y) ->
  exists w, x !! 0 = Some w /\ w ++ y = data.
Proof.
  intros HL Hwin.
  rewrite lag_windows_of_nat in Hwin. injection Hwin as <- <-.
  exists (take L data). split; [|apply take_drop].
  rewrite list_lookup_fmap, lookup_seq_lt by lia. done.
Qed.

End ClosedForm.

Lemma data_preprocessing_closed_form_witness :
  data_preprocessing [2; -1; 4; 3; -1]%Z (Z.of_nat 2)
    (Float (B64.of_decimal 67 100))
  = Ok ([[2; -1]; [-1; 4]], [4; 3], [[4; 3]], [-1])%Z.
Proof.
  destruct (data_preprocessing_closed_form [2; -1; 4; 3; -1]%Z 2
              (Float (B64.of_decimal 67 100)) 2)
    as [Hrun _]; [reflexivity | simpl; lia |].
  exact Hrun.
Defined.

Lemma feature_rows_have_num_lags_witness :
  Forall (fun row => length row = 2) [[2; -1]; [-1; 4]]%Z /\
  Forall (fun row => length row = 2) [[4; 3]]%Z.
Proof.
  apply (feature_rows_have_num_lags [2; -1; 4; 3; -1]%Z 2
           (Float (B64.of_decimal 67 100)) _ [4; 3]%Z _ [-1]%Z).
  reflexivity.
Defined.

Lemma windows_slide_witness : [-1; 4]%Z = drop 1 [2; -1]%Z ++ [4]%Z.
Proof.
  apply (windows_slide [2; -1; 4; 3; -1]%Z 2
           [[2; -1]; [-1; 4]; [4; 3]]%Z [4; 3; -1]%Z 0);
    [lia | reflexivity | reflexivity | reflexivity | reflexivity].
Defined.

Lemma first_window_and_labels_witness :
  exists w, [[2; -1]; [-1; 4]; [4; 3]]%Z !! 0 = Some w /\
            w ++ [4; 3; -1]%Z = [2; -1; 4; 3; -1]%Z.
Proof.
  apply (first_window_and_labels [2; -1; 4; 3; -1]%Z 2);
    [simpl; lia | reflexivity].
Defined.

(** ** From the table to the differences *)

Section Flatten.
Context {A : Type}.
Implicit Types (table : list (list A)).

Lemma length_reshape_flat table (c : nat) :
  Forall (fun row => length row = c) table ->
  length (Np.reshape_flat table) = length table * c.
Proof.
  unfold Np.reshape_flat.
  induction 1 as [|row table Hrow _ IH]; simpl; [done|].
  rewrite length_app, IH, Hrow. done.
Qed.

(** X9.  Flattening a table of [c] columns keeps every cell, in row-major
    order: the result has [rows * c] entries and cell [(i, j)] of the table
    is entry [i * c + j]. *)
Theorem reshape_flat_row_major table (c i j : nat) row :
  Forall (fun row => length row = c) table ->
  table !! i = Some row ->
  j < c ->
  length (Np.reshape_flat table) = length table * c /\
  Np.reshape_flat table !! (i * c + j) = row !! j.
Proof.
  intros Hall Hrow Hj. split; [by apply length_reshape_flat|].
  unfold Np.reshape_flat. revert i Hrow.
  induction Hall as [|r table Hr _ IH]; intros i Hrow; [done|].
  destruct i as [|i]; simpl in *.
  - injection Hrow as ->. rewrite lookup_app_l by lia. done.
  - rewrite lookup_app_r by lia.
    replace (c + i * c + j - length r) with (i * c + j) by lia.
    by apply IH.
Qed.

End Flatten.

Lemma reshape_flat_row_major_witness :
  length (Np.reshape_flat [[1; 2; 3]; [4; 5; 6]]%Z) = 2 * 3 /\
  Np.reshape_flat [[1; 2; 3]; [4; 5; 6]]%Z !! (1 * 3 + 2) = [4; 5; 6]%Z !! 2.
Proof.
  apply (reshape_flat_row_major [[1; 2; 3]; [4; 5; 6]]%Z 3 1 2 [4; 5; 6]%Z);
    [repeat constructor | reflexivity | lia].
Defined.

Section Differences.
Context {A : Type} (sub add : A -> A -> A).
Implicit Types (raw : list A).

Lemma diff_cons2 (a b : A) raw :
  Np.diff sub (a :: b :: raw) = sub b a :: Np.diff sub (b :: raw).
Proof.
  rewrite !diff_unfold. simpl. by rewrite Nat.sub_0_r.
Qed.

(** X10.  Differencing loses nothing but is undone by running totals: when
    [a + (b - a) = b], adding up the differences from the first level gives
    the series back. *)
Theorem integrate_diff (a0 : A) raw :
  (forall a b, add a (sub b a) = b) ->
  integrate add a0 (Np.diff sub (a0 :: raw)) = a0 :: raw.
Proof.
  intros Hadd. revert a0.
  induction raw as [|b raw IH]; intros a0; [done|].
  rewrite diff_cons2. simpl. by rewrite Hadd, IH.
Qed.

(** X11.  Differencing removes the level: a shift [s] that the subtraction
    cancels ([s b - s a = b - a]), applied to every value, leaves the
    differences unchanged. *)
Theorem diff_shift (s : A -> A) raw :
  (forall a b, sub (s b) (s a) = sub b a) ->
  Np.diff sub (s <$> raw) = Np.diff sub raw.
Proof.
  intros Hs. rewrite !diff_unfold, length_fmap.
  rewrite <- fmap_drop, <- fmap_take, zip_with_fmap_l, zip_with_fmap_r.
  apply zip_with_ext; done.
Qed.

(** X12.  Differencing followed by windowing: a series of [N] levels gives
    [N - 1 - L] pairs for a lag [L >= 0], and the label of pair [i] is the
    change from level [i + L] to level [i + L + 1]. *)
Theorem labels_are_changes raw (L : nat) :
  exists x y,
    lag_windows (Np.diff sub raw) (Z.of_nat L) = Ok (x, y) /\
    length x = length raw - 1 - L /\
    length y = length raw - 1 - L /\
    forall i, i < length raw - 1 - L ->
      exists a b,
        raw !! (i + L) = Some a /\ raw !! (i + L + 1) = Some b /\
        y !! i = Some (sub b a).
Proof.
  rewrite lag_windows_of_nat. do 2 eexists. split; [done|].
  rewrite length_fmap, length_seq, length_drop, length_diff.
  split; [done|]. split; [done|]. intros i Hi.
  destruct (lookup_lt_is_Some_2 raw (i + L)) as [a Ha]; [lia|].
  destruct (lookup_lt_is_Some_2 raw (i + L + 1)) as [b Hb]; [lia|].
  exists a, b. split; [done|]. split; [done|].
  rewrite lookup_drop, (Nat.add_comm L i). by apply lookup_diff.
Qed.

End Differences.

Lemma integrate_diff_witness :
  integrate Z.add 100%Z (Np.diff Z.sub (100 :: [102; 101; 105; 108; 107])%Z)
  = (100 :: [102; 101; 105; 108; 107])%Z.
Proof.
  apply (integrate_diff Z.sub Z.add 100%Z [102; 101; 105; 108; 107]%Z).
  intros a b. lia.
Defined.

Lemma diff_shift_witness :
  Np.diff Z.sub ((fun v => v + 1000)%Z <$> [100; 102; 101]%Z)
  = Np.diff Z.sub [100; 102; 101]%Z.
Proof.
  apply (diff_shift Z.sub (fun v => v + 1000)%Z [100; 102; 101]%Z).
  intros a b. lia.
Defined.

(** ** The notebook's own call: five lags, eighty percent *)

Lemma floor_eighty_percent (M : nat) :
  Z.to_nat (Qfloor ((80 # 100) * inject_Z (Z.of_nat M))) = 4 * M / 5.
Proof.
  unfold Qfloor, Qmult, inject_Z. cbn [Qnum Qden].
  change (Z.pos (100 * 1)) with (20 * 5)%Z.
  replace (80 * Z.of_nat M)%Z with (20 * (4 * Z.of_nat M))%Z by lia.
  rewrite Z.div_mul_cancel_l by lia.
  rewrite <- (Nat2Z.id (4 * M / 5)). f_equal.
  rewrite Nat2Z.inj_div. f_equal. lia.
Qed.

Lemma eighty_percent_index (M : nat) :
  int_times (80 # 100) (Z.of_nat M) = Ok (Z.of_nat (4 * M / 5)).
Proof.
  unfold int_times. rewrite int_floor.
  - by rewrite <- floor_eighty_percent, Z2Nat.id
      by (apply (floor_fraction (80 # 100) M); unfold Qle; simpl; lia).
  - apply Qmult_le_0_compat; unfold Qle; simpl; lia.
Qed.

Section Pipeline.
Context {A : Type} (sub : A -> A -> A).

(** X13.  From a one-column table of [N >= 8] rows the notebook's cells
    (flatten, difference, [data_preprocessing(data, 5, 0.80)]) return
    [M = N - 6] pairs: [4 * M / 5] (integer division) for training and the
    rest for testing, and neither block is empty. *)
Theorem notebook_pipeline_sizes (table : list (list A)) (N : nat) :
  length table = N ->
  Forall (fun row => length row = 1) table ->
  8 <= N ->
  exists x_train y_train x_test y_test,
    notebook_pipeline sub table = Ok (x_train, y_train, x_test, y_test) /\
    length x_train = 4 * (N - 6) / 5 /\
    length y_train = 4 * (N - 6) / 5 /\
    length x_test = N - 6 - 4 * (N - 6) / 5 /\
    length y_test = N - 6 - 4 * (N - 6) / 5 /\
    1 <= length x_train /\
    1 <= length x_test.
Proof.
  intros HN Hcol H8. unfold notebook_pipeline, notebook_split.
  set (data := Np.diff sub (Np.reshape_flat table)).
  assert (Hdata : length data - 5 = N - 6).
  { unfold data. rewrite length_diff, (length_reshape_flat _ 1 Hcol). lia. }
  assert (Hlo : 1 <= 4 * (N - 6) / 5).
  { apply Nat.div_le_lower_bound; lia. }
  assert (Hhi : 4 * (N - 6) / 5 < N - 6).
  { apply Nat.Div0.div_lt_upper_bound; lia. }
  pose proof (blocks_at data 5 (80 # 100) (4 * (N - 6) / 5)) as Hrun.
  rewrite Hdata in Hrun. change (Z.of_nat 5) with 5%Z in Hrun.
  rewrite Hrun; [|apply eighty_percent_index|lia].
  do 4 eexists. split; [reflexivity|].
  rewrite !length_fmap, !length_seq, length_take, !length_drop.
  repeat split; lia.
Qed.

End Pipeline.

Lemma notebook_pipeline_sizes_witness :
  exists x_train y_train x_test y_test,
    notebook_pipeline Z.sub
      [[100]; [102]; [101]; [105]; [108]; [107]; [110]; [111]]%Z
    = Ok (x_train, y_train, x_test, y_test) /\
    length x_train = 4 * (8 - 6) / 5 /\
    length y_train = 4 * (8 - 6) / 5 /\
    length x_test = 8 - 6 - 4 * (8 - 6) / 5 /\
    length y_test = 8 - 6 - 4 * (8 - 6) / 5 /\
    1 <= length x_train /\
    1 <= length x_test.
Proof.
  apply (notebook_pipeline_sizes Z.sub
           [[100]; [102]; [101]; [105]; [108]; [107]; [110]; [111]]%Z 8);
    [reflexivity | repeat constructor | lia].
Defined.

(** ** The float [0.80] of the notebook's call *)

Lemma split_index_agrees_spec (v : B64.float) (n d : Z) (fuel : nat) (M0 M : Z) :
  split_index_agrees v n d fuel M0 = true ->
  (M0 <= M < M0 + Z.of_nat fuel)%Z ->
  int_times (Float v) M = Ok (n * M / d)%Z.
Proof.
  revert M0. induction fuel as [|fuel IH]; intros M0 Hall HM; [lia|].
  cbn [split_index_agrees] in Hall. apply andb_true_iff in Hall as [H0 Hrest].
  destruct (Z.eq_dec M M0) as [->|Hne].
  - destruct (int_times _ M0) as [z|e]; [|done].
    apply Z.eqb_eq in H0. by subst.
  - apply (IH (M0 + 1)%Z); [done|lia].
Qed.

Lemma eighty_percent_b64_index (M : nat) :
  (Z.of_nat M < 65536)%Z ->
  int_times (Float (B64.of_decimal 80 100)) (Z.of_nat M)
  = Ok (Z.of_nat (4 * M / 5)).
Proof.
  intros HM.
  assert (Hall : split_index_agrees (B64.of_decimal 80 100) 4 5
                   (Z.to_nat 65536) 0 = true)
    by (vm_compute; reflexivity).
  rewrite (split_index_agrees_spec _ _ _ _ 0 (Z.of_nat M) Hall) by lia.
  f_equal. rewrite Nat2Z.inj_div. f_equal. lia.
Qed.

Section EightyPercent.
Context {A : Type}.

(** X21.  With the binary64 float [0.80] as the fraction, every dataset of
    fewer than 65536 pairs is split at [4 * M / 5] (integer division),
    exactly as with the exact fraction [4/5]. *)
Theorem eighty_percent_b64 (data : list A) (L : nat) :
  (Z.of_nat (length data - L) < 65536)%Z ->
  int_times (Float (B64.of_decimal 80 100)) (Z.of_nat (length data - L))
  = Ok (Z.of_nat (4 * (length data - L) / 5)) /\
  data_preprocessing data (Z.of_nat L) (Float (B64.of_decimal 80 100))
  = data_preprocessing data (Z.of_nat L) (80 # 100).
Proof.
  intros HM. split; [by apply eighty_percent_b64_index|].
  pose proof (lag_windows_of_nat data L) as Hwin.
  rewrite !(data_preprocessing_at _ _ _ _ _
              (Z.of_nat (4 * (length data - L) / 5)) Hwin); [done| |];
    unfold len; rewrite length_fmap, length_seq.
  - apply eighty_percent_index.
  - by apply eighty_percent_b64_index.
Qed.

End EightyPercent.

Lemma eighty_percent_b64_witness :
  data_preprocessing [2; -1; 4; 3; -1; 0; 7]%Z (Z.of_nat 5)
    (Float (B64.of_decimal 80 100))
  = data_preprocessing [2; -1; 4; 3; -1; 0; 7]%Z (Z.of_nat 5) (80 # 100).
Proof.
  destruct (eighty_percent_b64 [2; -1; 4; 3; -1; 0; 7]%Z 5) as [_ Hrun];
    [simpl; lia|].
  exact Hrun.
Defined.

(** ** The RMSE cell in exact arithmetic: symmetry *)

Lemma length_square_subtract (a b : list R) :
  length a = length b -> length (Np.square (Np.subtract a b)) = length b.
Proof.
  intros Hlen. unfold Np.square, Np.subtract.
  rewrite length_fmap, length_zip_with. lia.
Qed.

Lemma average_square_nonneg (a b : list R) :
  length a = length b -> 1 <= length b ->
  (0 <= Np.average (Np.square (Np.subtract a b)))%R.
Proof.
  intros Hlen Hpos. unfold Np.average.
  rewrite length_square_subtract by done.
  apply Rle_mult_inv_pos; [apply sum_square_nonneg|].
  apply lt_0_INR. lia.
Qed.

Lemma rmse_test_ok (y_pred y_test : list R) :
  length y_pred = length y_test -> 1 <= length y_test ->
  rmse_test y_pred y_test
  = Ok (sqrt (Np.average (Np.square (Np.subtract y_pred y_test)))).
Proof.
  intros Hlen Hpos.
  pose proof (average_square_nonneg _ _ Hlen Hpos) as Hmse.
  unfold rmse_test, Np.mean_squared_error.
  rewrite Hlen, Nat.eqb_refl. simpl.
  destruct (Nat.eqb_spec (length y_test) 0) as [H0|_]; [lia|]. simpl.
  unfold Np.math_sqrt. destruct (Rlt_dec _ 0) as [Hneg|_]; [lra|]. done.
Qed.

Lemma rmse_test_err (y_pred y_test : list R) :
  length y_pred <> length y_test \/ length y_test = 0 ->
  rmse_test y_pred y_test = Err ValueError.
Proof.
  intros Hbad. unfold rmse_test, Np.mean_squared_error.
  destruct (Nat.eqb_spec (length y_pred) (length y_test)) as [Heq|Hne]; [|done].
  simpl. destruct Hbad as [Hne|H0]; [done|].
  rewrite Heq, H0. done.
Qed.

Lemma square_subtract_comm (a b : list R) :
  Np.square (Np.subtract a b) = Np.square (Np.subtract b a).
Proof.
  unfold Np.square, Np.subtract. revert b.
  induction a as [|u a IH]; intros [|v b]; simpl; try done.
  rewrite IH. f_equal. ring.
Qed.

(** X15.  The RMSE cell does not depend on the order of its two arguments:
    the notebook passes [(y_pred, y_test)] where the library expects
    [(y_true, y_pred)], and gets the same result, error cases included. *)
Theorem rmse_test_symmetric (y_pred y_test : list R) :
  rmse_test y_pred y_test = rmse_test y_test y_pred.
Proof.
  destruct (decide (length y_pred = length y_test)) as [Heq|Hne].
  - destruct (decide (length y_test = 0)) as [H0|Hpos].
    + rewrite !rmse_test_err by (right; lia). done.
    + rewrite !rmse_test_ok by (done || lia).
      unfold Np.average.
      rewrite square_subtract_comm, !length_square_subtract by done.
      by rewrite Heq.
  - rewrite !rmse_test_err by (left; lia). done.
Qed.

(** ** The directional-ratio cell: full agreement *)






(** ** Zero in the directional ratio *)



(** ** The plotting cell *)

Section Plot.
Context {A B : Type}.

Lemma plotted_drop {C : Type} (a : list C) :
  plotted a = drop (length a - 50) a.
Proof.
  unfold plotted, slice_from, clip. simpl. f_equal. lia.
Qed.

(** X20.  The plot shows the last 50 points, or all of them when there are
    fewer; the two plotted curves have the same length and stay aligned:
    point [j] of each curve is entry [M - min(50, M) + j] of its array. *)
Theorem plotted_aligned (y_pred : list A) (y_test : list B) :
  length y_pred = length y_test ->
  let M := length y_test in
  length (plotted y_pred) = Nat.min 50 M /\
  length (plotted y_test) = Nat.min 50 M /\
  forall j,
    plotted y_pred !! j = y_pred !! (M - Nat.min 50 M + j) /\
    plotted y_test !! j = y_test !! (M - Nat.min 50 M + j).
Proof.
  intros Hlen M. rewrite !plotted_drop, !length_drop, Hlen. fold M.
  split; [lia|]. split; [lia|]. intros j.
  rewrite !lookup_drop. split; f_equal; lia.
Qed.

End Plot.

Lemma plotted_aligned_witness :
  length (plotted [1; 2; 3]%Z) = Nat.min 50 3 /\
  length (plotted [4; 5; 6]%Z) = Nat.min 50 3.
Proof.
  destruct (plotted_aligned [1; 2; 3]%Z [4; 5; 6]%Z) as (H1 & H2 & _);
    [reflexivity|].
  split; assumption.
Defined.

(** * The RMSE cell on binary64 values *)

(** ** Signs through rounding *)

Lemma shr_1_nonneg mrs : (0 <= shr_m mrs -> 0 <= shr_m (shr_1 mrs))%Z.
Proof. destruct mrs as [[|[p|p|]|p] r s]; simpl; lia. Qed.

Lemma iter_pos_invariant {T} (f : T -> T) (P : T -> Prop) :
  (forall x, P x -> P (f x)) -> forall p x, P x -> P (SpecFloat.iter_pos f p x).
Proof.
  intros Hf. induction p as [p IH|p IH|]; intros x Hx; simpl; auto.
Qed.

Lemma shr_nonneg mrs e n :
  (0 <= shr_m mrs -> 0 <= shr_m (fst (shr mrs e n)))%Z.
Proof.
  intros H. destruct n; simpl; auto.
  apply (iter_pos_invariant shr_1 (fun r => 0 <= shr_m r)%Z);
    auto using shr_1_nonneg.
Qed.

Lemma shr_fexp_nonneg m e l :
  (0 <= m -> 0 <= shr_m (fst (shr_fexp B64.prec B64.emax m e l)))%Z.
Proof.
  intros H. unfold shr_fexp. apply shr_nonneg.
  destruct l as [|[]]; simpl; lia.
Qed.

Lemma round_nearest_even_nonneg m l :
  (0 <= m -> 0 <= round_nearest_even m l)%Z.
Proof.
  intros H. destruct l as [|[]]; simpl; try lia.
  destruct (Z.even m); lia.
Qed.

(** Rounding a non-negative mantissa keeps the sign and makes no NaN. *)
Lemma binary_round_aux_signed s m e l :
  (0 <= m)%Z -> B64.signed s (binary_round_aux B64.prec B64.emax s m e l).
Proof.
  intros Hm. unfold binary_round_aux.
  pose proof (shr_fexp_nonneg m e l Hm) as H1.
  destruct (shr_fexp B64.prec B64.emax m e l) as [mrs' e'].
  simpl in H1.
  pose proof (shr_fexp_nonneg _ e' loc_Exact
                (round_nearest_even_nonneg _ (loc_of_shr_record mrs') H1)) as H2.
  destruct (shr_fexp B64.prec B64.emax (round_nearest_even _ _) e' loc_Exact)
    as [mrs'' e''].
  simpl in H2.
  destruct (shr_m mrs'') as [|p|p]; simpl; [done| |lia].
  by destruct (Z.leb e'' _).
Qed.

Lemma binary_round_signed s m e :
  B64.signed s (binary_round B64.prec B64.emax s m e).
Proof.
  unfold binary_round. destruct (shl_align _ _ _) as [mz ez].
  by apply binary_round_aux_signed.
Qed.

Lemma binary_normalize_not_nan z e :
  binary_normalize B64.prec B64.emax z e false <> S754_nan.
Proof.
  destruct z as [|p|p]; simpl; [done| |].
  - pose proof (binary_round_signed false p e) as H.
    by destruct (binary_round _ _ _ _ _).
  - pose proof (binary_round_signed true p e) as H.
    by destruct (binary_round _ _ _ _ _).
Qed.

Lemma binary_normalize_nonneg z e :
  (0 <= z)%Z ->
  B64.nonneg (binary_normalize B64.prec B64.emax z e false) = true.
Proof.
  destruct z as [|p|p]; intros Hz; simpl; [done| |lia].
  pose proof (binary_round_signed false p e) as H.
  destruct (binary_round _ _ _ _ _); simpl in *; by subst.
Qed.

Lemma nonneg_signed (v : B64.float) :
  B64.signed false v -> B64.nonneg v = true.
Proof. destruct v; simpl; try done; by intros ->. Qed.

(** ** The operations of the cell *)

Lemma sub_finite_not_nan (a b : B64.float) :
  B64.is_finite a = true -> B64.is_finite b = true ->
  B64.sub a b <> S754_nan.
Proof.
  destruct a as [sa| | |sa ma ea], b as [sb| | |sb mb eb]; try done; simpl; intros _ _.
  - by destruct sa, sb.
  - apply binary_normalize_not_nan.
Qed.

Lemma sub_diag_zero (a : B64.float) :
  B64.is_finite a = true -> B64.is_zero (B64.sub a a) = true.
Proof.
  destruct a as [sa| | |sa ma ea]; try done; intros _.
  - by destruct sa.
  - unfold B64.sub, SFsub. by rewrite Z.sub_diag.
Qed.

Lemma square_nonneg (d : B64.float) :
  d <> S754_nan -> B64.nonneg (B64.mul d d) = true.
Proof.
  destruct d as [[]|[]| |[] m e]; intros Hd; try done;
    apply nonneg_signed; by apply (binary_round_aux_signed false).
Qed.

Lemma square_zero (d : B64.float) :
  B64.is_zero d = true -> B64.mul d d = S754_zero false.
Proof. by destruct d as [[]| | |]. Qed.

Lemma add_nonneg (u v : B64.float) :
  B64.nonneg u = true -> B64.nonneg v = true ->
  B64.nonneg (B64.add u v) = true.
Proof.
  destruct u as [su|[]| |[] mu eu], v as [sv|[]| |[] mv ev]; try done;
    simpl; intros _ _.
  - by destruct su, sv.
  - apply nonneg_signed, binary_round_signed.
Qed.

Lemma add_zero (u v : B64.float) :
  B64.is_zero u = true -> B64.is_zero v = true ->
  B64.is_zero (B64.add u v) = true.
Proof.
  destruct u as [su| | |], v as [sv| | |]; try done. intros _ _.
  by destruct su, sv.
Qed.

Lemma digits2_pos_iter_xO (p k : positive) :
  digits2_pos (Pos.iter xO p k) = (digits2_pos p + k)%positive.
Proof.
  induction k as [|k IH] using Pos.peano_ind.
  - simpl. lia.
  - rewrite Pos.iter_succ. simpl. rewrite IH. lia.
Qed.

Lemma digits2_pos_bound (p : positive) (n : Z) :
  (0 <= n)%Z -> (Z.pos p < 2 ^ n)%Z -> (Z.pos (digits2_pos p) <= n)%Z.
Proof.
  revert n. induction p as [p IH|p IH|]; intros n Hn Hp; simpl;
    (destruct (Z.eq_dec n 0%Z) as [->|Hn0]; [simpl in Hp; lia|]);
    try lia;
    replace n with (Z.succ (n - 1)) in Hp by lia;
    rewrite Z.pow_succ_r in Hp by lia;
    specialize (IH (n - 1)%Z); lia.
Qed.

Lemma shr_fexp_exact (m : positive) (e : Z) :
  Z.pos (digits2_pos m) = 53%Z -> (-1074 <= e)%Z ->
  shr_fexp B64.prec B64.emax (Z.pos m) e loc_Exact
  = ({| shr_m := Z.pos m; shr_r := false; shr_s := false |}, e).
Proof.
  intros Hd He.
  assert (Hshift : (fexp B64.prec B64.emax (Zdigits2 (Z.pos m) + e) - e = 0)%Z).
  { unfold fexp, emin, B64.prec, B64.emax. simpl Zdigits2. rewrite Hd. lia. }
  unfold shr_fexp. by rewrite Hshift.
Qed.

(** A mantissa of exactly 53 digits with an exponent in range is kept as
    it is. *)
Lemma binary_round_aux_exact (s : bool) (m : positive) (e : Z) :
  Z.pos (digits2_pos m) = 53%Z -> (-1074 <= e <= 971)%Z ->
  binary_round_aux B64.prec B64.emax s (Z.pos m) e loc_Exact
  = S754_finite s m e.
Proof.
  intros Hd He. unfold binary_round_aux.
  rewrite shr_fexp_exact by (done || lia).
  cbn [shr_m loc_of_shr_record round_nearest_even].
  rewrite shr_fexp_exact by (done || lia).
  cbn [shr_m].
  destruct (Z.leb_spec e (B64.emax - B64.prec)) as [_|Hgt]; [done|].
  unfold B64.emax, B64.prec in Hgt. lia.
Qed.

(** The float of a count below [2^53] is a positive number. *)
Lemma of_Z_positive (n : Z) :
  (1 <= n < 2 ^ 53)%Z -> exists m e, B64.of_Z n = S754_finite false m e.
Proof.
  intros [H1 H53]. destruct n as [|p|p]; try lia.
  unfold B64.of_Z, binary_normalize, binary_round.
  pose proof (digits2_pos_bound p 53 ltac:(lia) H53) as Hd.
  set (d := digits2_pos p) in *.
  assert (Hfexp : fexp B64.prec B64.emax (Z.pos d + 0) = (Z.pos d - 53)%Z).
  { unfold fexp, emin, B64.prec, B64.emax. lia. }
  rewrite Hfexp. unfold shl_align.
  destruct (Z.pos d - 53 - 0)%Z as [|k|k] eqn:Hk; try lia.
  - exists p, 0%Z. apply binary_round_aux_exact; [fold d|]; lia.
  - exists (Pos.iter xO p k), (Z.pos d - 53)%Z.
    apply binary_round_aux_exact; [|lia].
    rewrite digits2_pos_iter_xO. fold d. lia.
Qed.

Lemma div_nonneg (x y : B64.float) (m : positive) (e : Z) :
  B64.nonneg x = true -> y = S754_finite false m e ->
  B64.nonneg (B64.div x y) = true.
Proof.
  intros Hx ->. destruct x as [[]|[]| |[] mx ex]; try done.
  unfold B64.div, SFdiv, SFdiv_core_binary.
  set (m' := match _ with Z.pos _ => Z.shiftl _ _ | Z0 => Z.pos mx | Z.neg _ => 0%Z end).
  assert (Hm' : (0 <= m')%Z).
  { unfold m'. destruct (_ - _ - _)%Z; try lia. by apply Z.shiftl_nonneg. }
  pose proof (Z.div_pos m' (Z.pos m) Hm' ltac:(lia)) as Hq.
  unfold Z.div in Hq. destruct (Z.div_eucl m' (Z.pos m)) as [q r].
  apply nonneg_signed. by apply (binary_round_aux_signed false).
Qed.

Lemma div_zero (x y : B64.float) (m : positive) (e : Z) :
  B64.is_zero x = true -> y = S754_finite false m e ->
  B64.is_zero (B64.div x y) = true.
Proof. intros Hx ->. by destruct x as [[]| | |]. Qed.



Lemma zero_nonneg (v : B64.float) :
  B64.is_zero v = true -> B64.nonneg v = true.
Proof. by destruct v. Qed.

(** The summation of the left-to-right order is built by additions. *)
Lemma add_reduce_seq_by_addition : Np.reduces_by_addition Np.add_reduce_seq.
Proof.
  intros P a H0 _ Ha Hadd. unfold Np.add_reduce_seq.
  generalize (S754_zero false) H0.
  induction Ha as [|v a Hv _ IH]; intros acc Hacc; simpl; [done|].
  apply IH. by apply Hadd.
Qed.

(** ** The cell on finite arrays *)

Lemma forallb_of_Forall {T} (f : T -> bool) (l : list T) :
  Forall (fun v => f v = true) l <-> forallb f l = true.
Proof.
  induction l as [|v l IH]; simpl; [by split|].
  rewrite Forall_cons, andb_true_iff, IH. done.
Qed.

Lemma squared_errors_nonneg (a b : list B64.float) :
  Forall (fun v => B64.is_finite v = true) a ->
  Forall (fun v => B64.is_finite v = true) b ->
  Forall (fun v => B64.nonneg v = true) (Np.squared_errors a b).
Proof.
  intros Ha. revert b. unfold Np.squared_errors.
  induction Ha as [|u a Hu _ IH]; intros b Hb; [constructor|].
  destruct Hb as [|v b Hv Hb]; simpl; constructor; [|by apply IH].
  apply square_nonneg. by apply sub_finite_not_nan.
Qed.

Lemma squared_errors_diag (a : list B64.float) :
  Forall (fun v => B64.is_finite v = true) a ->
  Forall (fun v => B64.is_zero v = true) (Np.squared_errors a a).
Proof.
  unfold Np.squared_errors.
  induction 1 as [|u a Hu _ IH]; simpl; constructor; [|done].
  by rewrite square_zero by (by apply sub_diag_zero).
Qed.

Lemma math_sqrt_b64_nonneg (v : B64.float) :
  B64.nonneg v = true -> Np.math_sqrt_b64 v = Ok (B64.sqrt v).
Proof. by destruct v as [[]|[]| |[] m e]. Qed.

Section Cell.
Variable add_reduce : list B64.float -> B64.float.
Hypothesis add_reduce_adds : Np.reduces_by_addition add_reduce.

Lemma add_reduce_nonneg (a : list B64.float) :
  Forall (fun v => B64.nonneg v = true) a ->
  B64.nonneg (add_reduce a) = true.
Proof.
  intros Ha.
  apply (add_reduce_adds (fun v => B64.nonneg v = true)); try done.
  apply add_nonneg.
Qed.

Lemma add_reduce_zero (a : list B64.float) :
  Forall (fun v => B64.is_zero v = true) a ->
  B64.is_zero (add_reduce a) = true.
Proof.
  intros Ha.
  apply (add_reduce_adds (fun v => B64.is_zero v = true)); try done.
  apply add_zero.
Qed.

Lemma average_b64_nonneg (a : list B64.float) :
  (1 <= len a < 2 ^ 53)%Z ->
  Forall (fun v => B64.nonneg v = true) a ->
  B64.nonneg (Np.average_b64 add_reduce a) = true.
Proof.
  intros Hn Ha. destruct (of_Z_positive _ Hn) as (m & e & Hy).
  unfold Np.average_b64. eapply div_nonneg; [|exact Hy].
  by apply add_reduce_nonneg.
Qed.

Lemma average_b64_zero (a : list B64.float) :
  (1 <= len a < 2 ^ 53)%Z ->
  Forall (fun v => B64.is_zero v = true) a ->
  B64.is_zero (Np.average_b64 add_reduce a) = true.
Proof.
  intros Hn Ha. destruct (of_Z_positive _ Hn) as (m & e & Hy).
  unfold Np.average_b64. eapply div_zero; [|exact Hy].
  by apply add_reduce_zero.
Qed.

Lemma mean_squared_error_b64_err (y_true y_pred : list B64.float) :
  length y_true <> length y_pred \/ length y_pred = 0 \/
  ~ Forall (fun v => B64.is_finite v = true) y_true \/
  ~ Forall (fun v => B64.is_finite v = true) y_pred ->
  Np.mean_squared_error_b64 add_reduce y_true y_pred = Err ValueError.
Proof.
  intros Hbad. unfold Np.mean_squared_error_b64.
  destruct (Nat.eqb_spec (length y_true) (length y_pred)) as [Heq|Hne]; [|done].
  simpl. destruct (Nat.eqb_spec (length y_true) 0) as [H0|Hpos]; [done|].
  destruct (forallb B64.is_finite y_true) eqn:Ht; [|done].
  destruct (forallb B64.is_finite y_pred) eqn:Hp; [|done].
  apply forallb_of_Forall in Ht, Hp.
  destruct Hbad as [?|[?|[?|?]]]; [done|lia|done|done].
Qed.

Lemma mean_squared_error_b64_ok (y_true y_pred : list B64.float) :
  length y_true = length y_pred ->
  (1 <= Z.of_nat (length y_pred) < 2 ^ 53)%Z ->
  Forall (fun v => B64.is_finite v = true) y_true ->
  Forall (fun v => B64.is_finite v = true) y_pred ->
  let mse := Np.average_b64 add_reduce
               [Np.average_b64 add_reduce (Np.squared_errors y_true y_pred)] in
  Np.mean_squared_error_b64 add_reduce y_true y_pred = Ok mse /\
  B64.nonneg mse = true /\
  (y_true = y_pred -> B64.is_zero mse = true).
Proof.
  intros Hlen HM Ht Hp mse.
  assert (Hsq : (1 <= len (Np.squared_errors y_true y_pred) < 2 ^ 53)%Z).
  { unfold len, Np.squared_errors. rewrite length_zip_with. lia. }
  split; [|split].
  - unfold Np.mean_squared_error_b64.
    rewrite Hlen, Nat.eqb_refl. simpl.
    destruct (Nat.eqb_spec (length y_pred) 0) as [H0|_]; [lia|].
    apply forallb_of_Forall in Ht, Hp. by rewrite Ht, Hp.
  - apply average_b64_nonneg; [by vm_compute|].
    constructor; [|constructor].
    apply average_b64_nonneg; [done|]. by apply squared_errors_nonneg.
  - intros <-. apply average_b64_zero; [by vm_compute|].
    constructor; [|constructor].
    apply average_b64_zero; [done|]. by apply squared_errors_diag.
Qed.

End Cell.




(** ** Which inputs the cell rejects *)

(** X14.  On arrays of fewer than [2^53] entries the RMSE cell raises
    exactly when the two arrays differ in length, are empty, or hold a NaN
    or an infinity; the exception is then a [ValueError].  [math.sqrt]
    never sees a negative argument. *)
Theorem rmse_test_raises_iff (add_reduce : list B64.float -> B64.float)
    (y_pred y_test : list B64.float) :
  Np.reduces_by_addition add_reduce ->
  (Z.of_nat (length y_test) < 2 ^ 53)%Z ->
  (raises (rmse_test_b64 add_reduce y_pred y_test)
   <-> length y_pred <> length y_test \/ length y_test = 0 \/
       ~ Forall (fun v => B64.is_finite v = true) y_pred \/
       ~ Forall (fun v => B64.is_finite v = true) y_test) /\
  (raises (rmse_test_b64 add_reduce y_pred y_test)
   -> rmse_test_b64 add_reduce y_pred y_test = Err ValueError).
Proof.
  intros Hadd HM.
  destruct (decide (length y_pred <> length y_test \/ length y_test = 0 \/
                    ~ Forall (fun v => B64.is_finite v = true) y_pred \/
                    ~ Forall (fun v => B64.is_finite v = true) y_test))
    as [Hbad|Hgood].
  - assert (Hrun : rmse_test_b64 add_reduce y_pred y_test = Err ValueError).
    { unfold rmse_test_b64.
      by rewrite (mean_squared_error_b64_err add_reduce _ _ Hbad). }
    rewrite Hrun. split; [|done]. split; [done|]. intros _. by exists ValueError.
  - assert (Hlen : length y_pred = length y_test).
    { destruct (decide (length y_pred = length y_test)); [done|].
      exfalso. apply Hgood. by left. }
    assert (Hpos : length y_test <> 0).
    { intros H0. apply Hgood. right. by left. }
    assert (Hp : Forall (fun v => B64.is_finite v = true) y_pred).
    { destruct (decide (Forall (fun v => B64.is_finite v = true) y_pred));
        [done|]. exfalso. apply Hgood. right. right. by left. }
    assert (Ht : Forall (fun v => B64.is_finite v = true) y_test).
    { destruct (decide (Forall (fun v => B64.is_finite v = true) y_test));
        [done|]. exfalso. apply Hgood. right. right. by right. }
    destruct (mean_squared_error_b64_ok add_reduce Hadd y_pred y_test
                Hlen ltac:(lia) Hp Ht) as (Hrun & Hnn & _).
    unfold rmse_test_b64. rewrite Hrun. simpl.
    rewrite math_sqrt_b64_nonneg by done.
    split; [|by intros [e He]]. split; [by intros [e He]|done].
Qed.

Lemma rmse_test_raises_iff_witness :
  raises (rmse_test_b64 Np.add_reduce_seq
            [B64.of_Z 1; S754_nan] [B64.of_Z 1; B64.of_Z 2]).
Proof.
  destruct (rmse_test_raises_iff Np.add_reduce_seq
              [B64.of_Z 1; S754_nan] [B64.of_Z 1; B64.of_Z 2])
    as [[_ Hraise] _];
    [apply add_reduce_seq_by_addition | simpl; lia |].
  apply Hraise. right. right. left.
  intros Hall. apply Forall_cons in Hall as [_ Hall].
  apply Forall_cons in Hall as [Hnan _]. discriminate Hnan.
Defined.

(** ** The empty evaluation set *)

(** C4.  On an empty evaluation set the evaluator fails: the RMSE cell
    raises the [ValueError] with which [mean_squared_error] rejects arrays
    without samples, in exact and in binary64 arithmetic alike, so it
    returns no RMSE (and no NaN), and the run of the two evaluation cells
    ends there without a result. *)
Theorem empty_evaluation_set (y_pred : list R) :
  rmse_test y_pred [] = Err ValueError /\
  (forall r, rmse_test y_pred [] <> Ok r) /\
  evaluation y_pred [] = Err ValueError /\
  (forall add_reduce (p : list B64.float),
     rmse_test_b64 add_reduce p [] = Err ValueError).
Proof.
  assert (Hrmse : rmse_test y_pred [] = Err ValueError)
    by (apply rmse_test_err; by right).
  split; [done|]. split; [by rewrite Hrmse|]. split.
  - unfold evaluation. by rewrite Hrmse.
  - intros add_reduce p. unfold rmse_test_b64.
    rewrite mean_squared_error_b64_err; [done|]. right. by left.
Qed.

(** ** The evaluation scenario on binary64 values

    Predictions [1, -2, 3] against labels [1, -2, -3] give the float
    [3.4641016151377544]; a difference of [2^600] overflows to [+inf]. *)

Example rmse_scenario_b64 :
  rmse_test_b64 Np.add_reduce_seq
    [B64.of_Z 1; B64.of_Z (-2); B64.of_Z 3]
    [B64.of_Z 1; B64.of_Z (-2); B64.of_Z (-3)]
  = Ok (S754_finite false 7800463371553962 (-51)).
Proof. vm_compute. reflexivity. Qed.

Example rmse_overflow_b64 :
  rmse_test_b64 Np.add_reduce_seq
    [S754_finite false 4503599627370496 548] [S754_zero false]
  = Ok (S754_infinity false).
Proof. vm_compute. reflexivity. Qed.
